(** * twitter_bookmark_scrapper: a shallow embedding and its properties

    The development follows [twitter_bookmark_scrapper.py] top to bottom:
    URL helpers, the article fetcher, the scroll-and-collect loop, the tweet
    parser, the row builder and the output stage.  Python values are modelled
    as follows.

    - [str] is [string]; a character is a code point of the 8-bit alphabet
      and the character classes ([str.isspace], regex [\s] and [\w],
      [str.lower]) are the Unicode ones restricted to that alphabet.
    - [set[str]] is [gset string], [dict[str, str]] is [gmap string string].
    - A call that may raise returns a [result]; [except Exception] is a match
      on it.
    - The disk is a [gmap] from paths to files; whether a file can be opened
      and written is up to the file system, an interface like [urlparse].
    - The records built by [_parse_tweet] are Python dicts that are shared
      between the list [bookmarks] and the list [article_bookmarks]; they
      live in a store and the lists hold references. *)

From Stdlib Require Import ZArith Ascii Lia Bool.
From stdpp Require Import gmap strings list sorting.

Local Open Scope Z_scope.

(** ** Exceptions *)

(** The subclasses of [Exception] that the libraries and built-ins used by
    the script raise.  [SystemExit] and [KeyboardInterrupt] are not among them: they
    derive from [BaseException] and no [except Exception] catches them. *)
Inductive exn : Type :=
  | RequestException
  | PlaywrightTimeout
  | PlaywrightError
  | ValueError
  | OSError
  | UnicodeEncodeError.

Inductive result (A : Type) : Type :=
  | Ok (a : A)
  | Raise (e : exn).
Arguments Ok {A} a.
Arguments Raise {A} e.

#[global] Instance result_ret : MRet result := λ A a, Ok a.
#[global] Instance result_bind : MBind result := λ A B f m,
  match m with
  | Ok a => f a
  | Raise e => Raise e
  end.
#[global] Instance result_fmap : FMap result := λ A B f m,
  match m with
  | Ok a => Ok (f a)
  | Raise e => Raise e
  end.

(** ** Python [str] operations *)

Module Py.

Definition code (c : ascii) : N := N_of_ascii c.

(** [str.isspace] for one character; also the regex class [\s]. *)
Definition isspace (c : ascii) : bool :=
  let n := code c in
  ((9 <=? n) && (n <=? 13) || (28 <=? n) && (n <=? 32)
   || (n =? 133) || (n =? 160))%N.

(** The regex class [\w]: [str.isalnum] or the underscore. *)
Definition isword (c : ascii) : bool :=
  let n := code c in
  ((48 <=? n) && (n <=? 57) || (65 <=? n) && (n <=? 90) || (n =? 95)
   || (97 <=? n) && (n <=? 122)
   || (n =? 170) || (n =? 178) || (n =? 179) || (n =? 181) || (n =? 185)
   || (n =? 186) || (188 <=? n) && (n <=? 190)
   || (192 <=? n) && (n <=? 214) || (216 <=? n) && (n <=? 246)
   || (248 <=? n) && (n <=? 255))%N.

Definition lower_char (c : ascii) : ascii :=
  let n := code c in
  if ((65 <=? n) && (n <=? 90)
      || (192 <=? n) && (n <=? 222) && negb (n =? 215))%N
  then ascii_of_N (n + 32) else c.

(** [s.lower()] *)
Fixpoint lower (s : string) : string :=
  match s with
  | EmptyString => EmptyString
  | String c s' => String (lower_char c) (lower s')
  end.

(** [s.startswith(p)] *)
Fixpoint startswith (s p : string) {struct p} : bool :=
  match p with
  | EmptyString => true
  | String a p' =>
      match s with
      | EmptyString => false
      | String b s' => Ascii.eqb a b && startswith s' p'
      end
  end.

(** [sub in s] *)
Fixpoint contains (sub s : string) : bool :=
  startswith s sub ||
  match s with
  | EmptyString => false
  | String _ s' => contains sub s'
  end.

(** [s.endswith(suf)] *)
Definition endswith (s suf : string) : bool :=
  startswith (String.rev s) (String.rev suf).

(** [s[:n]] *)
Fixpoint take (n : nat) (s : string) : string :=
  match n, s with
  | S n', String c s' => String c (take n' s')
  | _, _ => EmptyString
  end.

(** [s[n:]] *)
Fixpoint drop (n : nat) (s : string) : string :=
  match n, s with
  | S n', String _ s' => drop n' s'
  | _, _ => s
  end.

Fixpoint lstrip_by (p : ascii → bool) (s : string) : string :=
  match s with
  | EmptyString => EmptyString
  | String c s' => if p c then lstrip_by p s' else s
  end.

Definition rstrip_by (p : ascii → bool) (s : string) : string :=
  String.rev (lstrip_by p (String.rev s)).

Definition strip_by (p : ascii → bool) (s : string) : string :=
  rstrip_by p (lstrip_by p s).

(** [s.strip()] *)
Definition strip (s : string) : string := strip_by isspace s.

(** [s.strip(chars)] *)
Definition strip_chars (chars s : string) : string :=
  strip_by (λ c, contains (String c EmptyString) chars) s.

(** [s.replace(a, b)] for single characters [a] and [b]. *)
Fixpoint replace_char (a b : ascii) (s : string) : string :=
  match s with
  | EmptyString => EmptyString
  | String c s' =>
      String (if Ascii.eqb c a then b else c) (replace_char a b s')
  end.

(** [s.replace(a, empty)] for a single character [a]. *)
Fixpoint remove_char (a : ascii) (s : string) : string :=
  match s with
  | EmptyString => EmptyString
  | String c s' =>
      if Ascii.eqb c a then remove_char a s' else String c (remove_char a s')
  end.

(** The longest prefix of [s] whose characters satisfy [p], and the rest. *)
Fixpoint span (p : ascii → bool) (s : string) : string * string :=
  match s with
  | EmptyString => (EmptyString, EmptyString)
  | String c s' =>
      if p c then let '(a, b) := span p s' in (String c a, b)
      else (EmptyString, s)
  end.

(** [sep.join(l)] *)
Definition join (sep : string) (l : list string) : string :=
  String.concat sep l.

(** [x or y] on strings: the first operand unless it is empty. *)
Definition str_or (x y : string) : string :=
  match x with
  | EmptyString => y
  | _ => x
  end.

(** Truthiness of a string. *)
Definition truthy (s : string) : bool :=
  match s with
  | EmptyString => false
  | _ => true
  end.

(** [sorted(s)] for a set of strings: the elements in increasing
    lexicographic order of code points. *)
Definition sorted (s : gset string) : list string :=
  merge_sort String.le (elements s).

End Py.

(** ** Library calls the script makes *)

(** The components of [urllib.parse.urlparse(url)] the script reads. *)
Record url_parts : Type := mk_url_parts {
  scheme : string;
  netloc : string;
  path : string;
}.

(** [urlparse] belongs to the Python standard library, not to the script:
    the embedding takes it as an interface.  It may raise [ValueError]. *)
Class UrlLib : Type := urlparse : string → result url_parts.

(** A reference implementation of the interface, after CPython's
    [urllib.parse]: leading C0 controls and spaces are stripped, tabs and
    newlines removed, the scheme is split at the first colon, the netloc
    runs from [//] to the first of [/], [?] and [#], then the fragment, the
    query and the parameters of the last segment are cut off the path.
    Unbalanced square brackets in the netloc raise [ValueError].  What
    stands between balanced brackets is not looked at, as in CPython up to
    3.11.3; later versions also raise [ValueError] when it is not an IPv6
    or IPvFuture literal.  The properties that go through [urlparse] are
    stated for any [UrlLib]; the examples use URLs without brackets. *)
Module UrlRef.

Definition c0_or_space (c : ascii) : bool := (Py.code c <=? 32)%N.

Definition scheme_char (c : ascii) : bool :=
  let n := Py.code c in
  ((48 <=? n) && (n <=? 57) || (65 <=? n) && (n <=? 90)
   || (97 <=? n) && (n <=? 122)
   || (n =? 43) || (n =? 45) || (n =? 46))%N.

Definition ascii_alpha (c : ascii) : bool :=
  let n := Py.code c in
  ((65 <=? n) && (n <=? 90) || (97 <=? n) && (n <=? 122))%N.

Definition is_char (a : ascii) (c : ascii) : bool := Ascii.eqb c a.

(** [url[:i], url[i+1:]] for the first index [i] of a colon, when the text
    before it is a scheme. *)
Definition split_scheme (url : string) : string * string :=
  match url with
  | EmptyString => (EmptyString, url)
  | String c0 _ =>
      let '(pre, rest) := Py.span scheme_char url in
      match rest with
      | String ":" rest' =>
          if ascii_alpha c0 then (Py.lower pre, rest') else (EmptyString, url)
      | _ => (EmptyString, url)
      end
  end.

Definition netloc_delim (c : ascii) : bool :=
  is_char "/" c || is_char "?" c || is_char "#" c.

Definition split_netloc (url : string) : string * string :=
  if Py.startswith url "//"
  then Py.span (λ c, negb (netloc_delim c)) (Py.drop 2 url)
  else (EmptyString, url).

Definition brackets_ok (nl : string) : bool :=
  Bool.eqb (Py.contains "[" nl) (Py.contains "]" nl).

(** [_splitparams]: the path up to the first semicolon of its last
    segment. *)
Fixpoint split_params (s : string) : string :=
  match s with
  | EmptyString => EmptyString
  | String c s' =>
      if is_char ";" c && negb (Py.contains "/" s') then EmptyString
      else String c (split_params s')
  end.

Definition uses_params (sch : string) : bool :=
  bool_decide (sch ∈ [""; "ftp"; "hdl"; "prospero"; "http"; "imap"; "https";
                      "shttp"; "rtsp"; "rtspu"; "sip"; "sips"; "mms";
                      "sftp"; "tel"]).

Definition parse (url : string) : result url_parts :=
  let url := Py.lstrip_by c0_or_space url in
  let url := Py.remove_char "010" (Py.remove_char "013"
               (Py.remove_char "009" url)) in
  let '(sch, url) := split_scheme url in
  let '(nl, url) := split_netloc url in
  if negb (brackets_ok nl) then Raise ValueError else
  let url := fst (Py.span (λ c, negb (is_char "#" c)) url) in
  let url := fst (Py.span (λ c, negb (is_char "?" c)) url) in
  let url := if uses_params sch then split_params url else url in
  Ok {| scheme := sch; netloc := nl; path := url |}.

End UrlRef.

#[global] Instance py_urllib : UrlLib := UrlRef.parse.

(** Regular expressions of the script, as the matchers they denote. *)
Module Re.

Definition dquote : ascii := "034".

(** The negated class of the URL pattern: anything but white space, the
    double quote, the apostrophe, the angle brackets and the closing
    parenthesis. *)
Definition url_char (c : ascii) : bool :=
  negb (Py.isspace c
        || UrlRef.is_char dquote c || UrlRef.is_char "'" c
        || UrlRef.is_char "<" c || UrlRef.is_char ">" c
        || UrlRef.is_char ")" c).

(** A match of the URL pattern, [https?://] followed by one or more
    [url_char], anchored at the start of [s]. *)
Definition match_url_at (s : string) : option string :=
  if Py.startswith s "http" then
    let r := Py.drop 4 s in
    let '(pre, r) :=
      if Py.startswith r "s" then ("https", Py.drop 1 r) else ("http", r) in
    if Py.startswith r "://" then
      let body := fst (Py.span url_char (Py.drop 3 r)) in
      if Py.truthy body then Some (pre +:+ "://" +:+ body) else None
    else None
  else None.

(** [re.findall] of the URL pattern on [s]: the matches from left to
    right; [skip] counts the characters of the last match still ahead. *)
Fixpoint findall_urls_go (skip : nat) (s : string) : list string :=
  match s with
  | EmptyString => []
  | String _ s' =>
      match skip with
      | S k => findall_urls_go k s'
      | O =>
          match match_url_at s with
          | Some u => u :: findall_urls_go (String.length u - 1) s'
          | None => findall_urls_go 0 s'
          end
      end
  end.

Definition findall_urls (s : string) : list string := findall_urls_go 0 s.

(** The length of a match of [[&?]name=\w+] anchored at the start of [s]. *)
Definition match_name_at (s : string) : option nat :=
  match s with
  | String c r =>
      if (UrlRef.is_char "&" c || UrlRef.is_char "?" c)
         && Py.startswith r "name="
      then
        let w := fst (Py.span Py.isword (Py.drop 5 r)) in
        if Py.truthy w then Some (6 + String.length w)%nat else None
      else None
  | EmptyString => None
  end.

(** [re.sub(r'[&?]name=\w+', '', s)] *)
Fixpoint sub_name_go (skip : nat) (s : string) : string :=
  match s with
  | EmptyString => EmptyString
  | String c s' =>
      match skip with
      | S k => sub_name_go k s'
      | O =>
          match match_name_at s with
          | Some n => sub_name_go (n - 1) s'
          | None => String c (sub_name_go 0 s')
          end
      end
  end.

Definition sub_name (s : string) : string := sub_name_go 0 s.

End Re.

(** ** URL helpers *)

Definition LOGIN_SLUGS : list string :=
  ["x.com/login"; "x.com/i/flow"; "x.com/account/"].

Definition _is_login_page (url : string) : bool :=
  existsb (λ slug, Py.contains slug url) LOGIN_SLUGS.

(** [requests.head(short_url, allow_redirects=True, ...)] is the network:
    [head u] is [Ok r] when the request returns a response whose final URL
    is [r], and [Raise e] when it raises (timeout, connection error, ...). *)
Definition expand_tco_url (head : string → result string)
    (short_url : string) : result string :=
  match head short_url with
  | Ok resp_url => Ok resp_url
  | Raise _ => Ok short_url
  end.

(** [expand_urls_parallel]: one future per t.co URL; [as_completed] yields
    them in some order [order tco_urls] and [fut.result()] re-raises what the
    worker raised.  The pool size [workers] bounds only the concurrency.
    [head u] stands for the request made for [u]: for a URL that occurs more
    than once in [urls] the code makes one request per occurrence and keeps
    the result of the one that completes last, and the embedding takes these
    requests to end alike.  [_build_rows], the one caller, passes a list in
    which no URL is repeated. *)
Definition expand_urls_parallel (head : string → result string)
    (order : list string → list string) (urls : list string)
    : result (gmap string string) :=
  let tco_urls := filter (λ u, Py.contains "t.co/" u = true) urls in
  match tco_urls with
  | [] => Ok ∅
  | _ =>
      foldl (λ acc u,
               mapping ← acc;
               r ← expand_tco_url head u;
               mret (<[u := r]> mapping))
            (Ok ∅) (order tco_urls)
  end.

Definition is_article_url `{UrlLib} (url : string) : result bool :=
  parsed ← urlparse url;
  mret (Py.contains "/articles/" (path parsed)
        && (Py.endswith (Py.lower (netloc parsed)) "x.com"
            || Py.endswith (Py.lower (netloc parsed)) "twitter.com")).

(** ** The rendered tweet and its record *)

(** What the element handle [art] answers to the queries of [_parse_tweet]:
    [None] for an element (or attribute) that is absent. *)
Record time_dom : Type := mk_time_dom {
  datetime : option string;
  closest_a_href : string;
}.

Record art_dom : Type := mk_art_dom {
  handle_el : option (option string);
  name_el : option string;
  text_el : option string;
  time_el : option time_dom;
  anchors : list (option string);
  photos : list (option string);
}.

(** A handle either still points into the document or has gone stale, in
    which case the queries on it raise. *)
Inductive art : Type :=
  | Rendered (d : art_dom)
  | Detached (e : exn).

(** The dict returned by [_parse_tweet].  [timestamp] is [None] when the
    [time] element has no [datetime] attribute. *)
Record tweet : Type := mk_tweet {
  timestamp : option string;
  author_name : string;
  author_handle : string;
  text : string;
  tweet_url : string;
  article_url : string;
  article_text : string;
  image_urls : list string;
  urls_raw : list string;
}.

Definition set_article_text (v : string) (t : tweet) : tweet :=
  {| timestamp := timestamp t; author_name := author_name t;
     author_handle := author_handle t; text := text t;
     tweet_url := tweet_url t; article_url := article_url t;
     article_text := v;
     image_urls := image_urls t; urls_raw := urls_raw t |}.

(** [x or empty] for an attribute value. *)
Definition attr_or_empty (a : option string) : string := default "" a.

(** One iteration of the loop over the [a[href^=http]] elements. *)
Definition anchor_step `{UrlLib} (acc : gset string * string)
    (el : option string) : result (gset string * string) :=
  let '(raw_urls, article_url) := acc in
  let href := attr_or_empty el in
  is_art ← is_article_url href;
  if is_art : bool then
    if negb (Py.truthy article_url) then mret (raw_urls, href)
    else mret (raw_urls, article_url)
  else if Py.contains "t.co" href then mret ({[href]} ∪ raw_urls, article_url)
  else
    parsed ← urlparse href;
    if bool_decide (Py.lower (netloc parsed) ∉ ["x.com"; "twitter.com"])
    then mret ({[href]} ∪ raw_urls, article_url)
    else mret (raw_urls, article_url).

Fixpoint scan_anchors `{UrlLib} (acc : gset string * string)
    (els : list (option string)) : result (gset string * string) :=
  match els with
  | [] => mret acc
  | el :: els' => acc' ← anchor_step acc el; scan_anchors acc' els'
  end.

(** One iteration of the loop over the [tweetPhoto] images. *)
Definition image_step (image_urls : list string) (img_el : option string)
    : list string :=
  let src := attr_or_empty img_el in
  if Py.truthy src && Py.contains "pbs.twimg.com/media" src
  then image_urls ++ [Re.sub_name src +:+ "?name=orig"]
  else image_urls.

Definition _parse_tweet `{UrlLib} (a : art) : result tweet :=
  match a with
  | Detached e => Raise e
  | Rendered d =>
      let handle :=
        match handle_el d with
        | Some href => Py.strip_chars "/" (attr_or_empty href)
        | None => ""
        end in
      let name := default "" (name_el d) in
      let text := default "" (text_el d) in
      let ts :=
        match time_el d with
        | Some t => datetime t
        | None => Some ""
        end in
      let tweet_url :=
        match time_el d with
        | Some t => closest_a_href t
        | None => ""
        end in
      let raw_urls : gset string := list_to_set (Re.findall_urls text) in
      '(raw_urls, article_url) ← scan_anchors (raw_urls, "") (anchors d);
      let image_urls := foldl image_step [] (photos d) in
      mret {| timestamp := ts;
              author_name := name;
              author_handle := if Py.truthy handle then "@" +:+ handle else "";
              text := Py.strip (Py.replace_char "010" " " text);
              tweet_url := tweet_url;
              article_url := article_url;
              article_text := "";
              image_urls := image_urls;
              urls_raw := Py.sorted raw_urls |}
  end.

(** ** Article fetcher *)

(** The browser context: the auxiliary pages that are open, by number, and
    the number the next one gets. *)
Record browser : Type := mk_browser {
  open_pages : list nat;
  next_page : nat;
}.

(** How an auxiliary page behaves once opened on an article: the outcome of
    [goto], of [query_selector] for the [articleBody] element and for the
    [article] element ([None]: no such element; an element found carries the
    outcome of its [inner_text]), and of [close]. *)
Record aux_view : Type := mk_aux_view {
  goto_r : result unit;
  article_body : result (option (result string));
  article_tag : result (option (result string));
  close_r : result unit;
}.

(** The site as the fetcher meets it: whether the [n]-th [new_page] call
    succeeds and how that page behaves on a URL. *)
Record article_site : Type := mk_article_site {
  new_page_r : nat → result unit;
  view : nat → string → aux_view;
}.

Definition close_page (ap : nat) (b : browser) : browser :=
  {| open_pages := filter (λ p, p ≠ ap) (open_pages b);
     next_page := next_page b |}.

(** The body of the [try] block, with the browser it leaves behind. *)
Definition fetch_article_try (site : article_site) (b : browser)
    (article_url : string) : result string * browser :=
  let ap := next_page b in
  match new_page_r site ap with
  | Raise e => (Raise e, b)
  | Ok _ =>
      let b := {| open_pages := open_pages b ++ [ap];
                  next_page := S ap |} in
      let v := view site ap article_url in
      match goto_r v with
      | Raise e => (Raise e, b)
      | Ok _ =>
          match article_body v with
          | Raise e => (Raise e, b)
          | Ok first =>
              let body :=
                match first with
                | Some el => Ok (Some el)
                | None => article_tag v
                end in
              match body with
              | Raise e => (Raise e, b)
              | Ok body =>
                  let text :=
                    match body with
                    | Some inner_text => inner_text
                    | None => Ok ""
                    end in
                  match text with
                  | Raise e => (Raise e, b)
                  | Ok text =>
                      match close_r v with
                      | Raise e => (Raise e, b)
                      | Ok _ => (Ok (Py.strip text), close_page ap b)
                      end
                  end
              end
          end
      end
  end.

(** [except Exception] turns whatever the [try] block raised into the
    empty string. *)
Definition fetch_article_content (site : article_site) (b : browser)
    (article_url : string) : string * browser :=
  match fetch_article_try site b article_url with
  | (Ok text, b') => (text, b')
  | (Raise _, b') => ("", b')
  end.

(** ** Bookmark collection *)

(** The dict objects live in [store]; [bookmarks] lists references to them
    in the order of [bookmarks.append]. *)
Record cstate : Type := mk_cstate {
  store : list tweet;
  bookmarks : list nat;
  seen_ids : gset string;
}.

Definition empty_cstate : cstate :=
  {| store := []; bookmarks := []; seen_ids := ∅ |}.

(** The dedup key: [tweet["tweet_url"] or tweet["text"][:80]]. *)
Definition tid_of (t : tweet) : string :=
  Py.str_or (tweet_url t) (Py.take 80 (text t)).

(** The body of [for art in articles]; the second component is
    [new_this_round]. *)
Definition item_step `{UrlLib} (acc : cstate * nat) (a : art) : cstate * nat :=
  let '(st, new_this_round) := acc in
  match _parse_tweet a with
  | Raise _ => (st, new_this_round)
  | Ok t =>
      let ref := length (store st) in
      let st := {| store := store st ++ [t];
                   bookmarks := bookmarks st;
                   seen_ids := seen_ids st |} in
      let tid := tid_of t in
      if bool_decide (tid ∈ seen_ids st) then (st, new_this_round)
      else ({| store := store st;
               bookmarks := bookmarks st ++ [ref];
               seen_ids := {[tid]} ∪ seen_ids st |},
            S new_this_round)
  end.

Definition scroll_pass `{UrlLib} (st : cstate) (articles : list art)
    : cstate * nat :=
  foldl item_step (st, O) articles.

(** How the scroll loop was left. *)
Inductive loop_exit : Type :=
  | Stopped      (* [stop_scrolling] was set at the top of an iteration *)
  | Exhausted    (* five rounds in a row without a new tweet *)
  | MaxScrolls.  (* the range ran out *)

Record loop_result : Type := mk_loop_result {
  final : cstate;
  exit : loop_exit;
  rounds : list nat;   (* [new_this_round] of every pass that ran *)
}.

(** What the page shows and when Ctrl+C arrives: [feed i] are the elements
    [query_selector_all] returns in pass [i], [stop_at i] is the value of
    [stop_scrolling] read at the top of pass [i].  The calls on the page
    itself ([query_selector_all], the scroll) are taken to return. *)
Record scroll_env : Type := mk_scroll_env {
  feed : nat → list art;
  stop_at : nat → bool;
}.

(** [for scroll_idx in range(...)], with [n] iterations left. *)
Fixpoint scroll_loop `{UrlLib} (env : scroll_env) (n : nat) (scroll_idx : nat)
    (no_new_count : nat) (st : cstate) (log : list nat) : loop_result :=
  match n with
  | O => {| final := st; exit := MaxScrolls; rounds := log |}
  | S n' =>
      if stop_at env scroll_idx
      then {| final := st; exit := Stopped; rounds := log |}
      else
        let '(st, new_this_round) := scroll_pass st (feed env scroll_idx) in
        let log := log ++ [new_this_round] in
        if (0 <? new_this_round)%nat
        then scroll_loop env n' (S scroll_idx) O st log
        else
          let no_new_count := S no_new_count in
          if (5 <=? no_new_count)%nat
          then {| final := st; exit := Exhausted; rounds := log |}
          else scroll_loop env n' (S scroll_idx) no_new_count st log
  end.

(** [b["article_text"] = fetch_article_content(page, b["article_url"])] for
    the references in [article_bookmarks]; [writes] records each assignment
    as the reference it went to. *)
Fixpoint fetch_articles (site : article_site) (refs : list nat)
    (acc : list tweet * browser * list nat) : list tweet * browser * list nat :=
  match refs with
  | [] => acc
  | r :: refs' =>
      let '(store, b, writes) := acc in
      match store !! r with
      | None => fetch_articles site refs' acc
      | Some t =>
          let '(v, b) := fetch_article_content site b (article_url t) in
          fetch_articles site refs'
            (<[r := set_article_text v t]> store, b, writes ++ [r])
      end
  end.

(** What [collect_bookmarks] leaves behind: the list it returns with the
    store its references point into, the browser, the assignments to
    [article_text] and how the scroll loop ended ([None]: it never ran). *)
Record collected : Type := mk_collected {
  c_store : list tweet;
  c_bookmarks : list nat;
  c_browser : browser;
  c_writes : list nat;
  c_loop : option loop_result;
}.

(** The page before scrolling starts: [location.href] after navigation,
    [page.url], the outcome of [wait_for_selector], and [location.href]
    read again after a timeout. *)
Record landing : Type := mk_landing {
  href_js : result string;
  page_url : string;
  wait_for_tweets : result unit;
  href_js_again : result string;
}.

(** [b["article_url"]] is truthy, for the dict behind reference [r]. *)
Definition has_article (store : list tweet) (r : nat) : bool :=
  match store !! r with
  | Some t => Py.truthy (article_url t)
  | None => false
  end.

Definition real_url (js : result string) (page_url : string) : string :=
  match js with
  | Ok u => u
  | Raise _ => page_url
  end.

Definition nothing_collected (b : browser) : collected :=
  {| c_store := []; c_bookmarks := []; c_browser := b; c_writes := [];
     c_loop := None |}.

Definition collect_bookmarks `{UrlLib} (land : landing) (env : scroll_env)
    (late_sigint : bool) (site : article_site) (b : browser)
    (max_scrolls : Z) (no_articles : bool) : collected :=
  if _is_login_page (real_url (href_js land) (page_url land))
  then nothing_collected b
  else
    match wait_for_tweets land with
    | Raise _ => nothing_collected b
    | Ok _ =>
        let res :=
          scroll_loop env (Z.to_nat max_scrolls) 1%nat O empty_cstate [] in
        let st := final res in
        let stop_scrolling :=
          match exit res with Stopped => true | _ => late_sigint end in
        if negb no_articles && negb stop_scrolling
        then
          let article_bookmarks :=
            List.filter (has_article (store st)) (bookmarks st) in
          let '(store', b', writes) :=
            fetch_articles site article_bookmarks (store st, b, []) in
          {| c_store := store'; c_bookmarks := bookmarks st;
             c_browser := b'; c_writes := writes; c_loop := Some res |}
        else
          {| c_store := store st; c_bookmarks := bookmarks st;
             c_browser := b; c_writes := []; c_loop := Some res |}
    end.

(** The list of dicts the caller sees. *)
Definition returned (c : collected) : list tweet :=
  omap (λ r, c_store c !! r) (c_bookmarks c).

(** ** JSON, as [json.dumps] writes it and [json.loads] reads it *)

(** The values that occur in a row: [None], strings, lists and dicts (in
    insertion order). *)
#[warnings="-register-all"]
Inductive json : Type :=
  | JNull
  | JString (s : string)
  | JArray (l : list json)
  | JObject (kvs : list (string * json)).

Module Json.

Definition dquote : ascii := "034".
Definition bslash : ascii := "\".

Definition hex_digit (n : N) : ascii :=
  if (n <? 10)%N then ascii_of_N (48 + n) else ascii_of_N (87 + n).

(** The replacement of one character in [encode_basestring], the string
    encoder used with [ensure_ascii=False]. *)
Definition escape_char (c : ascii) : string :=
  let n := Py.code c in
  if Ascii.eqb c dquote then String bslash (String dquote "")
  else if Ascii.eqb c bslash then String bslash (String bslash "")
  else if (n =? 10)%N then "\n"
  else if (n =? 13)%N then "\r"
  else if (n =? 9)%N then "\t"
  else if (n =? 8)%N then "\b"
  else if (n =? 12)%N then "\f"
  else if (n <? 32)%N then
    "\u00" +:+ String (hex_digit (n / 16)) (String (hex_digit (n mod 16)) "")
  else String c "".

Fixpoint escape (s : string) : string :=
  match s with
  | EmptyString => EmptyString
  | String c s' => escape_char c +:+ escape s'
  end.

Definition encode_str (s : string) : string :=
  String dquote (escape s +:+ String dquote "").

(** [json.dumps(v, ensure_ascii=False)] with the default separators. *)
Fixpoint dumps (v : json) : string :=
  match v with
  | JNull => "null"
  | JString s => encode_str s
  | JArray l => "[" +:+ Py.join ", " (map dumps l) +:+ "]"
  | JObject kvs =>
      "{" +:+
      Py.join ", " (map (λ kv, encode_str (fst kv) +:+ ": " +:+ dumps (snd kv))
                        kvs)
      +:+ "}"
  end.

(** *** The decoder *)

Definition is_ws (c : ascii) : bool :=
  let n := Py.code c in ((n =? 32) || (n =? 9) || (n =? 10) || (n =? 13))%N.

Definition skip_ws (s : string) : string := Py.lstrip_by is_ws s.

Definition hex_value (c : ascii) : option N :=
  let n := Py.code c in
  if ((48 <=? n) && (n <=? 57))%N then Some (n - 48)%N
  else if ((97 <=? n) && (n <=? 102))%N then Some (n - 87)%N
  else if ((65 <=? n) && (n <=? 70))%N then Some (n - 55)%N
  else None.

(** The character a backslash escape other than [\u] stands for. *)
Definition unescape (e : ascii) : option ascii :=
  if Ascii.eqb e dquote then Some dquote
  else if Ascii.eqb e bslash then Some bslash
  else if Ascii.eqb e "/" then Some "/"%char
  else if Ascii.eqb e "b" then Some "008"%char
  else if Ascii.eqb e "f" then Some "012"%char
  else if Ascii.eqb e "n" then Some "010"%char
  else if Ascii.eqb e "r" then Some "013"%char
  else if Ascii.eqb e "t" then Some "009"%char
  else None.

Definition cons_char (c : ascii) (r : option (string * string))
    : option (string * string) :=
  match r with
  | Some (s, rest) => Some (String c s, rest)
  | None => None
  end.

(** [scanstring] in strict mode, from just after the opening quote: the
    string and the input after the closing quote.  An escape for a code
    point outside the alphabet is refused. *)
Fixpoint scanstring (s : string) : option (string * string) :=
  match s with
  | EmptyString => None
  | String c r =>
      if Ascii.eqb c dquote then Some (EmptyString, r)
      else if Ascii.eqb c bslash then
        match r with
        | EmptyString => None
        | String e r1 =>
            if Ascii.eqb e "u" then
              match r1 with
              | String h1 (String h2 (String h3 (String h4 r2))) =>
                  match hex_value h1, hex_value h2,
                        hex_value h3, hex_value h4 with
                  | Some a, Some b, Some c1, Some d =>
                      let n := (((a * 16 + b) * 16 + c1) * 16 + d)%N in
                      if (n <? 256)%N
                      then cons_char (ascii_of_N n) (scanstring r2)
                      else None
                  | _, _, _, _ => None
                  end
              | _ => None
              end
            else
              match unescape e with
              | Some ch => cons_char ch (scanstring r1)
              | None => None
              end
        end
      else if (Py.code c <? 32)%N then None
      else cons_char c (scanstring r)
  end.

(** The scanner: a value at the start of [s] and the input after it.
    [fuel] bounds the number of values, elements and members read. *)
Fixpoint scan_once (fuel : nat) (s : string) : option (json * string) :=
  match fuel with
  | O => None
  | S fuel' =>
      match s with
      | EmptyString => None
      | String c r =>
          if Ascii.eqb c dquote then
            match scanstring r with
            | Some (str, rest) => Some (JString str, rest)
            | None => None
            end
          else if Ascii.eqb c "[" then
            match skip_ws r with
            | String "]" rest => Some (JArray [], rest)
            | r' =>
                match scan_elements fuel' r' with
                | Some (l, rest) => Some (JArray l, rest)
                | None => None
                end
            end
          else if Ascii.eqb c "{" then
            match skip_ws r with
            | String "}" rest => Some (JObject [], rest)
            | r' =>
                match scan_members fuel' r' with
                | Some (kvs, rest) => Some (JObject kvs, rest)
                | None => None
                end
            end
          else if Py.startswith s "null" then Some (JNull, Py.drop 4 s)
          else None
      end
  end
with scan_elements (fuel : nat) (s : string)
    : option (list json * string) :=
  match fuel with
  | O => None
  | S fuel' =>
      match scan_once fuel' s with
      | None => None
      | Some (v, rest) =>
          match skip_ws rest with
          | String "]" rest' => Some ([v], rest')
          | String "," rest' =>
              match scan_elements fuel' (skip_ws rest') with
              | Some (l, rest'') => Some (v :: l, rest'')
              | None => None
              end
          | _ => None
          end
      end
  end
with scan_members (fuel : nat) (s : string)
    : option (list (string * json) * string) :=
  match fuel with
  | O => None
  | S fuel' =>
      match s with
      | String c r =>
          if Ascii.eqb c dquote then
            match scanstring r with
            | None => None
            | Some (key, rest) =>
                match skip_ws rest with
                | String ":" rest1 =>
                    match scan_once fuel' (skip_ws rest1) with
                    | None => None
                    | Some (v, rest2) =>
                        match skip_ws rest2 with
                        | String "}" rest3 => Some ([(key, v)], rest3)
                        | String "," rest3 =>
                            match scan_members fuel' (skip_ws rest3) with
                            | Some (kvs, rest4) =>
                                Some ((key, v) :: kvs, rest4)
                            | None => None
                            end
                        | _ => None
                        end
                    end
                | _ => None
                end
            end
          else None
      | EmptyString => None
      end
  end.

(** [json.loads(s)]: one value, white space around it, nothing else.  The
    members of an object come back as the list of pairs the decoder hands
    to [dict]. *)
Definition loads (s : string) : option json :=
  match scan_once (S (String.length s)) (skip_ws s) with
  | Some (v, rest) =>
      match skip_ws rest with
      | EmptyString => Some v
      | _ => None
      end
  | None => None
  end.

(** [d[k]] on the dict built from the pairs: the last binding of [k]. *)
Fixpoint get (k : string) (kvs : list (string * json)) : option json :=
  match kvs with
  | [] => None
  | (k', v) :: kvs' =>
      match get k kvs' with
      | Some v' => Some v'
      | None => if String.eqb k' k then Some v else None
      end
  end.

End Json.

(** ** Output *)

Definition CSV_FIELDS : list string :=
  ["timestamp"; "author_name"; "author_handle";
   "text"; "tweet_url"; "image_urls";
   "article_url"; "article_text"; "urls_expanded"].

(** A row is a dict from column names to values, in insertion order. *)
Abbreviation row := (list (string * json)).

Definition str_or_none (o : option string) : json :=
  match o with
  | Some s => JString s
  | None => JNull
  end.

Definition str_list (l : list string) : json := JArray (JString <$> l).

(** [{k: b[k] for k in (...)}] *)
Definition base_of (b : tweet) : row :=
  [("timestamp", str_or_none (timestamp b));
   ("author_name", JString (author_name b));
   ("author_handle", JString (author_handle b));
   ("text", JString (text b));
   ("tweet_url", JString (tweet_url b));
   ("article_url", JString (article_url b));
   ("article_text", JString (article_text b))].

(** [[url_map.get(u, u) for u in b["urls_raw"]]] *)
Definition expanded_of (url_map : gmap string string) (b : tweet)
    : list string :=
  (λ u, default u (url_map !! u)) <$> urls_raw b.

Definition csv_row_of (url_map : gmap string string) (b : tweet) : row :=
  base_of b ++
  [("image_urls", JString (Py.join " | " (image_urls b)));
   ("urls_expanded", JString (Py.join " | " (expanded_of url_map b)))].

Definition jsonl_row_of (url_map : gmap string string) (b : tweet) : row :=
  base_of b ++
  [("image_urls", str_list (image_urls b));
   ("urls_expanded", str_list (expanded_of url_map b))].

(** [list({u for b in bookmarks for u in b["urls_raw"] if "t.co/" in u})] *)
Definition all_tco (bookmarks : list tweet) : list string :=
  elements (list_to_set
              (filter (λ u, Py.contains "t.co/" u = true)
                      (concat (urls_raw <$> bookmarks))) : gset string).

Definition _build_rows (head : string → result string)
    (order : list string → list string) (bookmarks : list tweet)
    : result (list row * list row) :=
  url_map ← expand_urls_parallel head order (all_tco bookmarks);
  mret (csv_row_of url_map <$> bookmarks, jsonl_row_of url_map <$> bookmarks).

(** What a file holds: the saved session, the table handed to
    [csv.DictWriter], or text. *)
Inductive file : Type :=
  | SessionFile
  | CsvFile (fieldnames : list string) (rows : list row)
  | TextFile (content : string).

Definition newline : string := String "010" "".

(** The text written by the loop over [jsonl_rows]. *)
Definition jsonl_text (rows : list row) : string :=
  foldr (λ r acc, Json.dumps (JObject r) +:+ newline +:+ acc) "" rows.

Definition fmt_in (fmt a b : string) : bool :=
  String.eqb fmt a || String.eqb fmt b.

(** The operating system under the files that [save_output] writes:
    [open_w path] is the outcome of [open(path, "w", ...)], an [OSError]
    when the directory is missing or the file may not be written;
    [write_r path content] is the outcome of the writes up to the end of
    the [with] block, an [OSError] for a full disk or a
    [UnicodeEncodeError] for text that UTF-8 cannot encode; and
    [left_by path content] is what the file holds when they raised. *)
Class FileSys : Type := mk_file_sys {
  open_w : string → result unit;
  write_r : string → file → result unit;
  left_by : string → file → file;
}.

(** [with open(path, "w", ...) as f:] and the writes of [content] to [f],
    with the disk they leave.  A failing [open] leaves the disk as it
    was; once the file is open it has been created or truncated. *)
Definition write_file `{FileSys} (path : string) (content : file)
    (fs : gmap string file) : result unit * gmap string file :=
  match open_w path with
  | Raise e => (Raise e, fs)
  | Ok _ =>
      match write_r path content with
      | Ok _ => (Ok (), <[path := content]> fs)
      | Raise e => (Raise e, <[path := left_by path content]> fs)
      end
  end.

(** [save_output] with the disk it leaves, also when it raises: nothing
    in it catches an exception. *)
Definition save_output `{FileSys} (head : string → result string)
    (order : list string → list string) (fs : gmap string file)
    (bookmarks : list tweet) (stem fmt : string)
    : result unit * gmap string file :=
  match _build_rows head order bookmarks with
  | Raise e => (Raise e, fs)
  | Ok (csv_rows, jsonl_rows) =>
      let '(saved, fs) :=
        if fmt_in fmt "csv" "both"
        then write_file (stem +:+ ".csv") (CsvFile CSV_FIELDS csv_rows) fs
        else (Ok (), fs) in
      match saved with
      | Raise e => (Raise e, fs)
      | Ok _ =>
          if fmt_in fmt "jsonl" "both"
          then write_file (stem +:+ ".jsonl")
                 (TextFile (jsonl_text jsonl_rows)) fs
          else (Ok (), fs)
      end
  end.

(** The reader of a line-delimited file: the lines, each with its newline,
    and [json.loads] on each. *)
Fixpoint lines (s : string) : list string :=
  match s with
  | EmptyString => []
  | String c s' =>
      if Ascii.eqb c "010" then String c "" :: lines s'
      else
        match lines s' with
        | [] => [String c ""]
        | l :: ls => String c l :: ls
        end
  end.

Definition read_jsonl (content : string) : option (list json) :=
  mapM Json.loads (lines content).

(** ** Interactive login *)

(** What the login loop observes: at each test of [while not stop_flag] the
    flag and, for every open page, the outcome of reading [location.href];
    then the outcome of [storage_state].  A script that ends before the loop
    does leaves the outcome open. *)
Record login_env : Type := mk_login_env {
  polls : list (bool * list (result string));
  storage_state_r : result unit;
  late_stop : bool;
  storage_state_partial_r : result unit;
}.

Inductive login_exit : Type :=
  | LoginStopped
  | LoginNoPages
  | LoginDetected.

Fixpoint login_loop (polls : list (bool * list (result string)))
    : option login_exit :=
  match polls with
  | [] => None
  | (stop_flag, all_pages) :: polls' =>
      if stop_flag : bool then Some LoginStopped
      else
        match all_pages with
        | [] => Some LoginNoPages
        | _ =>
            let urls :=
              omap (λ r, match r with Ok u => Some u | Raise _ => None end)
                   all_pages in
            if existsb (λ u, negb (_is_login_page u)) urls
            then Some LoginDetected
            else login_loop polls'
        end
  end.

Definition interactive_login (env : login_env) (auth_file : string)
    (fs : gmap string file) : option (bool * gmap string file) :=
  out ← login_loop (polls env);
  let '(logged_in, fs) :=
    match out with
    | LoginDetected =>
        match storage_state_r env with
        | Ok _ => (true, <[auth_file := SessionFile]> fs)
        | Raise _ => (false, fs)
        end
    | _ => (false, fs)
    end in
  let stop_flag :=
    match out with LoginStopped => true | _ => late_stop env end in
  let fs :=
    if negb logged_in && stop_flag then
      match storage_state_partial_r env with
      | Ok _ => <[auth_file := SessionFile]> fs
      | Raise _ => fs
      end
    else fs in
  Some (logged_in, fs).

(** ** CLI *)

Record args : Type := mk_args {
  save_auth_only : bool;
  auth_file : string;
  max_scrolls : Z;
  output : string;
  fmt : string;
  headless : bool;
  no_articles : bool;
}.

(** What one call of [collect_bookmarks] meets. *)
Record collect_env : Type := mk_collect_env {
  ce_landing : landing;
  ce_scroll : scroll_env;
  ce_late_sigint : bool;
  ce_site : article_site;
}.

Record main_env : Type := mk_main_env {
  first_login : login_env;
  first_collect : collect_env;
  second_login : login_env;
  second_collect : collect_env;
  requests_head : string → result string;
  completion_order : list string → list string;
}.

Inductive status : Type :=
  | Returned
  | Exited (code : Z)
  | Uncaught (e : exn).

(** How [main] ends: the status, the files on disk, the list it held in
    [bookmarks] and how often it called [save_output]. *)
Record run : Type := mk_run {
  r_status : status;
  r_fs : gmap string file;
  r_bookmarks : list tweet;
  r_save_calls : nat;
}.

Definition removesuffix (s suf : string) : string :=
  if Py.truthy suf && Py.endswith s suf
  then Py.take (String.length s - String.length suf) s else s.

Definition run_collect `{UrlLib} (ce : collect_env) (b : browser) (a : args)
    : collected :=
  collect_bookmarks (ce_landing ce) (ce_scroll ce) (ce_late_sigint ce)
    (ce_site ce) b (max_scrolls a) (no_articles a).

(** [main] from step 2 on, with the files as step 1 left them. *)
Definition main_scrape `{UrlLib} `{FileSys} (env : main_env) (a : args)
    (fs : gmap string file) : option run :=
  let b := {| open_pages := []; next_page := O |} in
  let c := run_collect (first_collect env) b a in
  let bookmarks := returned c in
  '(bookmarks, fs) ←
    match bookmarks with
    | [] =>
        if negb (headless a) then
          '(ok, fs) ← interactive_login (second_login env) (auth_file a) fs;
          if ok : bool
          then Some (returned (run_collect (second_collect env)
                                 (c_browser c) a), fs)
          else Some (bookmarks, fs)
        else Some (bookmarks, fs)
    | _ => Some (bookmarks, fs)
    end;
  match bookmarks with
  | [] => Some {| r_status := Returned; r_fs := fs;
                  r_bookmarks := bookmarks; r_save_calls := O |}
  | _ =>
      let stem := removesuffix (removesuffix (output a) ".csv") ".jsonl" in
      match save_output (requests_head env) (completion_order env) fs
              bookmarks stem (fmt a) with
      | (Ok _, fs') =>
          Some {| r_status := Returned; r_fs := fs';
                  r_bookmarks := bookmarks; r_save_calls := 1%nat |}
      | (Raise e, fs') =>
          Some {| r_status := Uncaught e; r_fs := fs';
                  r_bookmarks := bookmarks; r_save_calls := 1%nat |}
      end
  end.

Definition main `{UrlLib} `{FileSys} (env : main_env) (a : args)
    (fs : gmap string file) : option run :=
  let has_session := bool_decide (is_Some (fs !! auth_file a)) in
  let need_login := negb has_session && negb (headless a) in
  let stopped code fs :=
    Some {| r_status := Exited code; r_fs := fs;
            r_bookmarks := []; r_save_calls := O |} in
  if need_login || save_auth_only a then
    '(ok, fs) ← interactive_login (first_login env) (auth_file a) fs;
    if negb ok then stopped 1 fs
    else if save_auth_only a then stopped 0 fs
    else main_scrape env a fs
  else if headless a && negb has_session then stopped 1 fs
  else main_scrape env a fs.

(** ** Notions used by the statements *)

(** The dicts behind the references of [bookmarks], in order. *)
Definition records (st : cstate) : list tweet :=
  omap (λ r, store st !! r) (bookmarks st).

(** The state after the first [k] passes over the feed. *)
Fixpoint after_passes `{UrlLib} (env : scroll_env) (k : nat) : cstate :=
  match k with
  | O => empty_cstate
  | S k' => fst (scroll_pass (after_passes env k') (feed env (S k')))
  end.

(** The elements the loop handles in its first [n] passes, in the order in
    which it handles them. *)
Definition shown (env : scroll_env) (n : nat) : list art :=
  concat (feed env <$> seq 1 n).

(** The collection when the first [m] of them have been handled. *)
Definition state_at `{UrlLib} (env : scroll_env) (n m : nat) : cstate :=
  fst (foldl item_step (empty_cstate, O) (take m (shown env n))).

(** Equal in every field but [article_text]. *)
Definition same_but_article_text (t t' : tweet) : Prop :=
  set_article_text "" t = set_article_text "" t'.

(** The invariant of the loop: references are allocated, the key of every
    record is in [seen_ids], and no two records share a key. *)
Definition cinv (st : cstate) : Prop :=
  Forall (λ r, (r < length (store st))%nat) (bookmarks st) ∧
  (∀ t, t ∈ records st → tid_of t ∈ seen_ids st) ∧
  NoDup (tid_of <$> records st).

(** [stop_scrolling] as the article phase reads it. *)
Definition cancelled (c : collected) (late_sigint : bool) : bool :=
  match c_loop c with
  | Some res => match exit res with Stopped => true | _ => late_sigint end
  | None => false
  end.

(** The values of the columns of a row: [None], a string or a list of
    strings. *)
Inductive flat : json → Prop :=
  | flat_null : flat JNull
  | flat_string s : flat (JString s)
  | flat_list l : flat (str_list l).

(** The text of a member of an object: the key, a colon, the value. *)
Definition member_text (kv : string * json) : string :=
  Json.encode_str (fst kv) +:+ ": " +:+ Json.dumps (snd kv).

(** The polls that are passed over: no Ctrl+C, a page open, and every page
    whose location can be read is on a login URL. *)
Definition still_waiting (poll : bool * list (result string)) : Prop :=
  fst poll = false ∧ snd poll ≠ [] ∧
  ∀ u, Ok u ∈ snd poll → _is_login_page u = true.

(** The file at [path] can be opened for writing and written, whatever
    the content. *)
Definition writable `{FileSys} (path : string) : Prop :=
  open_w path = Ok () ∧ ∀ content, write_r path content = Ok ().

(** Every character of [s] satisfies [p]. *)
Fixpoint all_chars (p : ascii → bool) (s : string) : bool :=
  match s with
  | EmptyString => true
  | String c s' => p c && all_chars p s'
  end.

(** No character of [s] is a newline. *)
Fixpoint no_newline (s : string) : bool :=
  match s with
  | EmptyString => true
  | String c s' => negb (Ascii.eqb c "010") && no_newline s'
  end.

(** The first element of the anchor list that is an article link with a
    non-empty [href]; empty when there is none. *)
Fixpoint first_article `{UrlLib} (els : list (option string)) : string :=
  match els with
  | [] => ""
  | el :: els' =>
      match is_article_url (attr_or_empty el) with
      | Ok true =>
          if Py.truthy (attr_or_empty el) then attr_or_empty el
          else first_article els'
      | _ => first_article els'
      end
  end.

(** The anchors that the loop of [_parse_tweet] adds to [raw_urls]. *)
Definition tracked_anchor `{UrlLib} (href : string) : Prop :=
  is_article_url href = Ok false ∧
  (Py.contains "t.co" href = true ∨
   ∃ parsed, urlparse href = Ok parsed ∧
             Py.lower (netloc parsed) ∉ ["x.com"; "twitter.com"]).

(** ** Sample inputs *)

(** A tweet element in which none of the queried elements is found. *)
Definition blank_dom : art_dom :=
  {| handle_el := None; name_el := None; text_el := None; time_el := None;
     anchors := []; photos := [] |}.

Definition blank_tweet : tweet :=
  {| timestamp := Some ""; author_name := ""; author_handle := "";
     text := ""; tweet_url := ""; article_url := ""; article_text := "";
     image_urls := []; urls_raw := [] |}.

(** The bookmarks page loads and shows tweets. *)
Definition quiet_landing : landing :=
  {| href_js := Ok "https://x.com/i/bookmarks";
     page_url := "https://x.com/i/bookmarks";
     wait_for_tweets := Ok ();
     href_js_again := Ok "https://x.com/i/bookmarks" |}.

(** Every article opens and has a body with the text [body]. *)
Definition plain_site (body : string) : article_site :=
  {| new_page_r := λ _, Ok ();
     view := λ _ _, {| goto_r := Ok ();
                       article_body := Ok (Some (Ok body));
                       article_tag := Ok None;
                       close_r := Ok () |} |}.

(** A tweet by Alice that links an article and a shortened URL. *)
Definition article_dom : art_dom :=
  {| handle_el := Some (Some "/alice");
     name_el := Some "Alice";
     text_el := Some "A long read";
     time_el := Some {| datetime := Some "2024-05-01T10:00:00.000Z";
                        closest_a_href := "https://x.com/alice/status/1" |};
     anchors := [Some "https://x.com/i/articles/1"; Some "https://t.co/abc"];
     photos := [] |}.

Definition article_tweet : tweet :=
  {| timestamp := Some "2024-05-01T10:00:00.000Z";
     author_name := "Alice"; author_handle := "@alice";
     text := "A long read";
     tweet_url := "https://x.com/alice/status/1";
     article_url := "https://x.com/i/articles/1";
     article_text := "";
     image_urls := [];
     urls_raw := ["https://t.co/abc"] |}.

(** A tweet whose text spells out the URL of its article and of the home
    page of the site. *)
Definition self_link_dom : art_dom :=
  {| handle_el := Some (Some "/alice");
     name_el := Some "Alice";
     text_el := Some "Read https://x.com/i/articles/1 or https://x.com/home";
     time_el := Some {| datetime := Some "2024-05-01T10:00:00.000Z";
                        closest_a_href := "https://x.com/alice/status/2" |};
     anchors := [Some "https://x.com/i/articles/1"];
     photos := [] |}.

(** A tweet that links a page of another site, then an article. *)
Definition foreign_article_dom : art_dom :=
  {| handle_el := Some (Some "/alice");
     name_el := Some "Alice";
     text_el := Some "Tonight";
     time_el := Some {| datetime := Some "2024-05-01T10:00:00.000Z";
                        closest_a_href := "https://x.com/alice/status/3" |};
     anchors := [Some "https://netflix.com/articles/1";
                 Some "https://x.com/i/articles/1"];
     photos := [] |}.

(** Every article page opens, then navigation times out. *)
Definition stalled_site : article_site :=
  {| new_page_r := λ _, Ok ();
     view := λ _ _, {| goto_r := Raise PlaywrightTimeout;
                       article_body := Ok None;
                       article_tag := Ok None;
                       close_r := Ok () |} |}.

(** Every article page opens and shows a body whose text cannot be read. *)
Definition unreadable_site : article_site :=
  {| new_page_r := λ _, Ok ();
     view := λ _ _, {| goto_r := Ok ();
                       article_body := Ok (Some (Raise PlaywrightError));
                       article_tag := Ok None;
                       close_r := Ok () |} |}.

(** The session has expired: the bookmarks page redirects to the login. *)
Definition expired_landing : landing :=
  {| href_js := Ok "https://x.com/i/flow/login";
     page_url := "https://x.com/i/bookmarks";
     wait_for_tweets := Ok ();
     href_js_again := Ok "https://x.com/i/flow/login" |}.

(** The bookmarks page loads but no tweet shows up in time. *)
Definition empty_landing : landing :=
  {| href_js := Ok "https://x.com/i/bookmarks";
     page_url := "https://x.com/i/bookmarks";
     wait_for_tweets := Raise PlaywrightTimeout;
     href_js_again := Ok "https://x.com/i/bookmarks" |}.

(** The user logs in at the second poll and the session is saved. *)
Definition quick_login : login_env :=
  {| polls := [(false, [Ok "https://x.com/i/flow/login"]);
               (false, [Ok "https://x.com/home"])];
     storage_state_r := Ok ();
     late_stop := false;
     storage_state_partial_r := Ok () |}.

Definition no_pages : browser := {| open_pages := []; next_page := O |}.

(** Every pass shows the same elements and Ctrl+C never comes. *)
Definition steady_feed (l : list art) : scroll_env :=
  {| feed := λ _, l; stop_at := λ _, false |}.

(** A tweet with a photo, an emoji image and an image without source. *)
Definition photo_dom : art_dom :=
  {| handle_el := Some (Some "https://x.com/bob/");
     name_el := Some "Bob";
     text_el := Some (String "010" "  Two lines" +:+ String "010" "of text ");
     time_el := None;
     anchors := [];
     photos := [Some "https://pbs.twimg.com/media/abc?format=jpg&name=small";
                Some "https://abs.twimg.com/emoji/v2/svg/1f600.svg";
                None] |}.

(** Every pass shows the same elements and Ctrl+C is seen from pass 2 on. *)
Definition interrupted_feed (l : list art) : scroll_env :=
  {| feed := λ _, l; stop_at := λ i, (2 <=? i)%nat |}.

(** A run with a stored session that has expired: the first attempt lands
    on the login page, the user logs in again, and the second attempt finds
    no tweet. *)
Definition relogin_env : main_env :=
  {| first_login := quick_login;
     first_collect := {| ce_landing := expired_landing;
                         ce_scroll := steady_feed [];
                         ce_late_sigint := false;
                         ce_site := plain_site "" |};
     second_login := quick_login;
     second_collect := {| ce_landing := empty_landing;
                          ce_scroll := steady_feed [];
                          ce_late_sigint := false;
                          ce_site := plain_site "" |};
     requests_head := λ u, Ok u;
     completion_order := id |}.

(** A run with a valid session whose bookmarks page shows Alice's tweet;
    every lookup of a shortened URL fails. *)
Definition scrape_env : main_env :=
  {| first_login := quick_login;
     first_collect := {| ce_landing := quiet_landing;
                         ce_scroll := steady_feed [Rendered article_dom];
                         ce_late_sigint := false;
                         ce_site := plain_site " The body. " |};
     second_login := quick_login;
     second_collect := {| ce_landing := empty_landing;
                          ce_scroll := steady_feed [];
                          ce_late_sigint := false;
                          ce_site := plain_site "" |};
     requests_head := λ _, Raise RequestException;
     completion_order := id |}.

Definition default_args : args :=
  {| save_auth_only := false; auth_file := "twitter_auth.json";
     max_scrolls := 100; output := "bookmarks"; fmt := "both";
     headless := false; no_articles := false |}.

(** The disk before the run: a session and the output of an earlier run. *)
Definition earlier_files : gmap string file :=
  {[ "twitter_auth.json" := SessionFile;
     "bookmarks.csv" := CsvFile CSV_FIELDS [];
     "bookmarks.jsonl" := TextFile "" ]}.

(** A disk on which every file can be opened and written. *)
#[global] Instance writable_disk : FileSys :=
  {| open_w := λ _, Ok (); write_r := λ _ _, Ok ();
     left_by := λ _ content, content |}.

(** A disk without the directory [out]: no file can be opened in it. *)
Definition no_out_dir : FileSys :=
  {| open_w := λ path,
       if Py.startswith path "out/" then Raise OSError else Ok ();
     write_r := λ _ _, Ok ();
     left_by := λ _ content, content |}.

#[global] Arguments item_step : simpl never.
#[global] Arguments scroll_pass : simpl never.
#[global] Arguments _parse_tweet : simpl never.

(** * Properties *)

(** ** The collection loop *)

Section collection.
Context `{UrlLib}.

Lemma item_step_raise st n a e :
  _parse_tweet a = Raise e → item_step (st, n) a = (st, n).
Proof. intros Hp. unfold item_step. by rewrite Hp. Qed.

Lemma item_step_seen st n a t :
  _parse_tweet a = Ok t → tid_of t ∈ seen_ids st →
  item_step (st, n) a =
    ({| store := store st ++ [t]; bookmarks := bookmarks st;
        seen_ids := seen_ids st |}, n).
Proof.
  intros Hp Hin. unfold item_step. rewrite Hp. simpl.
  by rewrite bool_decide_eq_true_2.
Qed.

Lemma item_step_new st n a t :
  _parse_tweet a = Ok t → tid_of t ∉ seen_ids st →
  item_step (st, n) a =
    ({| store := store st ++ [t];
        bookmarks := bookmarks st ++ [length (store st)];
        seen_ids := {[tid_of t]} ∪ seen_ids st |}, S n).
Proof.
  intros Hp Hin. unfold item_step. rewrite Hp. simpl.
  by rewrite bool_decide_eq_false_2.
Qed.

(** The three ways an item can go. *)
Lemma item_step_cases st n a :
  (∃ e, _parse_tweet a = Raise e ∧ item_step (st, n) a = (st, n)) ∨
  (∃ t, _parse_tweet a = Ok t ∧ tid_of t ∈ seen_ids st ∧
        item_step (st, n) a =
          ({| store := store st ++ [t]; bookmarks := bookmarks st;
              seen_ids := seen_ids st |}, n)) ∨
  (∃ t, _parse_tweet a = Ok t ∧ (tid_of t ∉ seen_ids st) ∧
        item_step (st, n) a =
          ({| store := store st ++ [t];
              bookmarks := bookmarks st ++ [length (store st)];
              seen_ids := {[tid_of t]} ∪ seen_ids st |}, S n)).
Proof.
  destruct (_parse_tweet a) as [t|e] eqn:Hp.
  - destruct (decide (tid_of t ∈ seen_ids st)) as [Hin|Hin].
    + right; left. exists t. eauto using item_step_seen.
    + right; right. exists t. eauto using item_step_new.
  - left. exists e. eauto using item_step_raise.
Qed.

(** A property of the state that every item preserves holds after a pass
    and after the loop. *)
Lemma foldl_item_step_inv (P : cstate → Prop) l acc :
  (∀ st n a, a ∈ l → P st → P (fst (item_step (st, n) a))) →
  P (fst acc) → P (fst (foldl item_step acc l)).
Proof.
  revert acc. induction l as [|a l IH]; intros [st n] Hstep HP; [done|].
  simpl. apply IH.
  - intros st' n' a' Hin. apply Hstep. by apply list_elem_of_further.
  - specialize (Hstep st n a (list_elem_of_here _ _) HP).
    exact Hstep.
Qed.

Lemma scroll_pass_inv (P : cstate → Prop) st l :
  (∀ st n a, a ∈ l → P st → P (fst (item_step (st, n) a))) →
  P st → P (fst (scroll_pass st l)).
Proof. intros. unfold scroll_pass. by apply foldl_item_step_inv. Qed.

(** One iteration of the loop. *)
Lemma scroll_loop_S env n idx c st log :
  scroll_loop env (S n) idx c st log =
    if stop_at env idx
    then {| final := st; exit := Stopped; rounds := log |}
    else
      let '(st1, new) := scroll_pass st (feed env idx) in
      if (0 <? new)%nat
      then scroll_loop env n (S idx) O st1 (log ++ [new])
      else if (5 <=? S c)%nat
           then {| final := st1; exit := Exhausted; rounds := log ++ [new] |}
           else scroll_loop env n (S idx) (S c) st1 (log ++ [new]).
Proof. reflexivity. Qed.

Lemma scroll_loop_inv (P : cstate → Prop) env n idx c st log :
  (∀ st k a, P st → P (fst (item_step (st, k) a))) →
  P st → P (final (scroll_loop env n idx c st log)).
Proof.
  intros Hstep. revert idx c st log.
  induction n as [|n IH]; intros idx c st log HP; [done|].
  rewrite scroll_loop_S.
  destruct (stop_at env idx); [done|].
  destruct (scroll_pass st (feed env idx)) as [st1 new] eqn:E.
  assert (P st1) as HP1.
  { change st1 with (fst (st1, new)). rewrite <-E.
    apply scroll_pass_inv; auto. }
  destruct (0 <? new)%nat; [by apply IH|].
  destruct (5 <=? S c)%nat; [exact HP1|by apply IH].
Qed.

(** Looking up old references is not affected by allocation. *)
Lemma omap_lookup_app (store : list tweet) t (refs : list nat) :
  Forall (λ r, (r < length store)%nat) refs →
  omap (λ r, (store ++ [t]) !! r) refs = omap (λ r, store !! r) refs.
Proof.
  induction 1 as [|r refs Hr _ IH]; [done|].
  simpl. rewrite lookup_app_l by done.
  destruct (store !! r); [f_equal|]; exact IH.
Qed.

Lemma cinv_empty : cinv empty_cstate.
Proof.
  split_and!; simpl; [constructor| |constructor].
  intros t Ht. by apply elem_of_nil in Ht.
Qed.

Lemma records_alloc st t :
  Forall (λ r, (r < length (store st))%nat) (bookmarks st) →
  records {| store := store st ++ [t]; bookmarks := bookmarks st;
             seen_ids := seen_ids st |} = records st.
Proof. intros. unfold records. simpl. by apply omap_lookup_app. Qed.

Lemma records_append st t s :
  Forall (λ r, (r < length (store st))%nat) (bookmarks st) →
  records {| store := store st ++ [t];
             bookmarks := bookmarks st ++ [length (store st)];
             seen_ids := s |} = records st ++ [t].
Proof.
  intros Hv. unfold records. simpl. rewrite omap_app. simpl.
  rewrite omap_lookup_app by done. f_equal.
  by rewrite list_lookup_middle.
Qed.

Lemma cinv_item_step st n a : cinv st → cinv (fst (item_step (st, n) a)).
Proof.
  intros (Hv & Hseen & Hnd).
  destruct (item_step_cases st n a)
    as [(e & _ & ->)|[(t & _ & Hin & ->)|(t & _ & Hnin & ->)]]; simpl.
  - done.
  - split_and!.
    + simpl. eapply Forall_impl; [exact Hv|]. intros r Hr. simpl in *.
      rewrite length_app. simpl. lia.
    + rewrite records_alloc by done. simpl. exact Hseen.
    + by rewrite records_alloc.
  - split_and!.
    + simpl. apply Forall_app. split.
      * eapply Forall_impl; [exact Hv|]. intros r Hr. simpl in *.
        rewrite length_app. simpl. lia.
      * constructor; [|constructor]. rewrite length_app. simpl. lia.
    + rewrite records_append by done. simpl.
      intros t' [Ht'| ->%list_elem_of_singleton]%elem_of_app; set_solver.
    + rewrite records_append by done. rewrite fmap_app. simpl.
      apply NoDup_app. split_and!; [done| |apply NoDup_singleton].
      intros x Hx ->%list_elem_of_singleton.
      apply list_elem_of_fmap in Hx as (t' & Heq & Ht').
      apply Hnin. rewrite Heq. by apply Hseen.
Qed.

Lemma cinv_scroll_loop env n idx c log :
  cinv (final (scroll_loop env n idx c empty_cstate log)).
Proof.
  apply (scroll_loop_inv cinv); [|apply cinv_empty].
  intros. by apply cinv_item_step.
Qed.

(** *** The article phase *)

Lemma same_but_article_text_refl t : same_but_article_text t t.
Proof. done. Qed.

Lemma same_but_article_text_trans t1 t2 t3 :
  same_but_article_text t1 t2 → same_but_article_text t2 t3 →
  same_but_article_text t1 t3.
Proof. unfold same_but_article_text. congruence. Qed.

Lemma same_but_article_text_set v t :
  same_but_article_text t (set_article_text v t).
Proof. done. Qed.

Lemma same_but_article_text_tid t t' :
  same_but_article_text t t' → tid_of t = tid_of t'.
Proof.
  intros E. unfold tid_of.
  assert (tweet_url t = tweet_url t') as ->
    by exact (f_equal tweet_url E).
  assert (text t = text t') as -> by exact (f_equal text E).
  done.
Qed.

(** The fetch loop keeps the size of the store, changes nothing but
    [article_text], and assigns once per reference it is given. *)
Lemma fetch_articles_spec site (refs : list nat) (store : list tweet)
    b writes :
  Forall (λ r, (r < length store)%nat) refs →
  ∃ store' b',
    fetch_articles site refs (store, b, writes) =
      (store', b', writes ++ refs) ∧
    length store' = length store ∧
    ∀ r, option_Forall2 same_but_article_text (store !! r) (store' !! r).
Proof.
  intros Hv. revert store b writes Hv.
  induction refs as [|r refs IH]; intros store b writes Hv.
  - exists store, b. rewrite app_nil_r. split_and!; [done..|].
    intros r. destruct (store !! r); by constructor.
  - apply Forall_cons in Hv as [Hr Hv]. simpl in Hr.
    destruct (lookup_lt_is_Some_2 store r Hr) as [t Ht].
    simpl. rewrite Ht.
    destruct (fetch_article_content site b (article_url t)) as [v b1].
    destruct (IH (<[r := set_article_text v t]> store) b1 (writes ++ [r]))
      as (store' & b' & Heq & Hlen & Hsame).
    { eapply Forall_impl; [exact Hv|]. intros r' Hr'. simpl in *.
      by rewrite length_insert. }
    exists store', b'. rewrite Heq, <-app_assoc. split_and!; [done| |].
    + by rewrite Hlen, length_insert.
    + intros r'. specialize (Hsame r').
      destruct (decide (r = r')) as [<-|Hne].
      * rewrite list_lookup_insert_eq in Hsame by done. rewrite Ht.
        inversion Hsame as [? t' Hs|]; subst. constructor.
        eapply same_but_article_text_trans; [|exact Hs].
        apply same_but_article_text_set.
      * by rewrite list_lookup_insert_ne in Hsame.
Qed.

Lemma omap_lookup_Forall2 (R : tweet → tweet → Prop)
    (s1 s2 : list tweet) (refs : list nat) :
  (∀ r : nat, option_Forall2 R (s1 !! r) (s2 !! r)) →
  Forall2 R (omap (λ r, s1 !! r) refs) (omap (λ r, s2 !! r) refs).
Proof.
  intros Hs. induction refs as [|r refs IH]; [constructor|].
  simpl. destruct (Hs r); [by constructor|exact IH].
Qed.

Lemma filter_has_article_valid (store : list tweet) (refs : list nat) :
  Forall (λ r, (r < length store)%nat) refs →
  Forall (λ r, (r < length store)%nat) (List.filter (has_article store) refs).
Proof.
  intros Hv. apply Forall_forall. intros r Hr.
  apply list_elem_of_In, filter_In in Hr as [Hr _].
  apply list_elem_of_In in Hr.
  by eapply Forall_forall in Hv.
Qed.

(** What [collect_bookmarks] returns, in terms of the scroll loop. *)
Lemma collect_returned land env late site b max_scrolls no_art :
  let c := collect_bookmarks land env late site b max_scrolls no_art in
  match c_loop c with
  | None => returned c = []
  | Some res =>
      res = scroll_loop env (Z.to_nat max_scrolls) 1 0 empty_cstate [] ∧
      c_bookmarks c = bookmarks (final res) ∧
      Forall2 same_but_article_text (records (final res)) (returned c)
  end.
Proof.
  unfold collect_bookmarks.
  destruct (_is_login_page _); [done|].
  destruct (wait_for_tweets land); [|done].
  set (res := scroll_loop env (Z.to_nat max_scrolls) 1 0 empty_cstate []).
  pose proof (cinv_scroll_loop env (Z.to_nat max_scrolls) 1 0 []) as Hinv.
  fold res in Hinv. destruct Hinv as (Hv & _ & _).
  destruct (negb no_art && negb _).
  - destruct (fetch_articles_spec site
                (List.filter (has_article (store (final res)))
                   (bookmarks (final res)))
                (store (final res)) b [])
      as (store' & b' & Heq & _ & Hsame).
    { by apply filter_has_article_valid. }
    rewrite Heq. simpl. split_and!; [done..|].
    unfold returned, records. simpl. by apply omap_lookup_Forall2.
  - simpl. split_and!; [done..|].
    apply Forall_Forall2_diag, Forall_forall. intros; done.
Qed.

Lemma Forall2_same_tids l l' :
  Forall2 same_but_article_text l l' → tid_of <$> l = tid_of <$> l'.
Proof.
  induction 1 as [|t t' l l' Ht _ IH]; [done|].
  simpl. f_equal; [by apply same_but_article_text_tid|exact IH].
Qed.

(** No two returned records share a dedup key. *)
Lemma collect_tids_NoDup land env late site b max_scrolls no_art :
  NoDup (tid_of <$>
           returned (collect_bookmarks land env late site b
                       max_scrolls no_art)).
Proof.
  pose proof (collect_returned land env late site b max_scrolls no_art)
    as Hc. simpl in Hc.
  destruct (c_loop _) as [res|].
  - destruct Hc as (-> & _ & Hsame).
    rewrite <-(Forall2_same_tids _ _ Hsame).
    apply cinv_scroll_loop.
  - rewrite Hc. constructor.
Qed.

Lemma tid_of_url t : tweet_url t ≠ "" → tid_of t = tweet_url t.
Proof. unfold tid_of. by destruct (tweet_url t). Qed.

Lemma tid_of_no_url t : tweet_url t = "" → tid_of t = Py.take 80 (text t).
Proof. unfold tid_of. by intros ->. Qed.

Lemma NoDup_tids_urls (l : list tweet) :
  NoDup (tid_of <$> l) →
  NoDup (filter (λ u, u ≠ "") (tweet_url <$> l)).
Proof.
  induction l as [|t l IH]; intros Hnd; [constructor|].
  rewrite fmap_cons in Hnd. apply NoDup_cons in Hnd as [Hnin Hnd].
  rewrite fmap_cons, filter_cons.
  destruct (decide (tweet_url t ≠ "")) as [Hne|_]; [|by apply IH].
  apply NoDup_cons. split; [|by apply IH].
  intros Hin. apply Hnin.
  apply list_elem_of_filter in Hin as [_ Hin].
  apply list_elem_of_fmap in Hin as (t' & Heq & Ht').
  apply list_elem_of_fmap. exists t'. split; [|done].
  rewrite !tid_of_url; congruence.
Qed.

(** C1. Whatever the scroll passes present, the sequence returned by
    [collect_bookmarks] holds every non-empty [tweet_url] at most once:
    the list of the non-empty permalinks of the returned records has no
    duplicate. *)
Theorem collect_bookmarks_unique_urls land env late site b
    max_scrolls no_art :
  NoDup (filter (λ u, u ≠ "")
           (tweet_url <$>
              returned (collect_bookmarks land env late site b
                          max_scrolls no_art))).
Proof. apply NoDup_tids_urls, collect_tids_NoDup. Qed.

(** *** The fallback key *)

Lemma NoDup_fmap_lookup_inj {A B} (f : A → B) (l : list A) i j x y :
  NoDup (f <$> l) → l !! i = Some x → l !! j = Some y → f x = f y → i = j.
Proof.
  intros Hnd Hi Hj Hf.
  eapply NoDup_lookup; [exact Hnd| |].
  - rewrite list_lookup_fmap, Hi. reflexivity.
  - rewrite list_lookup_fmap, Hj. simpl. by rewrite Hf.
Qed.

(** C3, as the code has it. A record whose [tweet_url] is empty has the
    first 80 characters of its text as its dedup key, the empty string
    included: the item is appended exactly when that key is not yet in
    [seen_ids], and the key is then recorded.  Hence no two returned
    records without [tweet_url] agree on the first 80 characters of their
    text, whether that prefix is empty or not. *)
Theorem fallback_dedup_by_text_prefix st n a t :
  _parse_tweet a = Ok t → tweet_url t = "" →
  item_step (st, n) a =
    (if bool_decide (Py.take 80 (text t) ∈ seen_ids st)
     then ({| store := store st ++ [t]; bookmarks := bookmarks st;
              seen_ids := seen_ids st |}, n)
     else ({| store := store st ++ [t];
              bookmarks := bookmarks st ++ [length (store st)];
              seen_ids := {[Py.take 80 (text t)]} ∪ seen_ids st |}, S n))
  ∧ ∀ land env late site b max_scrolls no_art i j t1 t2,
      let c := collect_bookmarks land env late site b max_scrolls no_art in
      returned c !! i = Some t1 → returned c !! j = Some t2 →
      tweet_url t1 = "" → tweet_url t2 = "" →
      Py.take 80 (text t1) = Py.take 80 (text t2) → i = j.
Proof.
  intros Hp Hurl. split.
  - rewrite <-(tid_of_no_url t Hurl). case_bool_decide.
    + by apply item_step_seen.
    + by apply item_step_new.
  - intros land env late site b max_scrolls no_art i j t1 t2 c
      Hi Hj H1 H2 Heq.
    eapply (NoDup_fmap_lookup_inj tid_of); [|exact Hi|exact Hj|].
    + apply collect_tids_NoDup.
    + by rewrite !tid_of_no_url.
Qed.

End collection.

(** The fallback key at work on the first blank tweet of a run. *)
Lemma fallback_dedup_by_text_prefix_witness :
  item_step (empty_cstate, O) (Rendered blank_dom) =
    ({| store := [blank_tweet]; bookmarks := [O];
        seen_ids := {[""]} ∪ ∅ |}, 1%nat).
Proof.
  exact (proj1 (fallback_dedup_by_text_prefix empty_cstate O
                  (Rendered blank_dom) blank_tweet eq_refl eq_refl)).
Defined.

(** C3, as the claim has it, fails: with the bookmarks page showing two
    blank tweets (no permalink, no text) in every pass, the second one and
    all later ones are taken for seen and one record is returned. *)
Lemma blank_records_are_deduplicated :
  _parse_tweet (Rendered blank_dom) = Ok blank_tweet ∧
  tweet_url blank_tweet = "" ∧ text blank_tweet = "" ∧
  returned (collect_bookmarks quiet_landing
              (steady_feed [Rendered blank_dom; Rendered blank_dom])
              false (plain_site "") no_pages 100 true) = [blank_tweet].
Proof. split_and!; reflexivity. Qed.

(** ** Leaving the scroll loop *)

Section exhaustion.
Context `{UrlLib}.







End exhaustion.


(** ** What happens to a record after it was appended *)

Section frozen.
Context `{UrlLib}.

(** The loop started after [p] full passes. *)
Lemma scroll_loop_trace env n p c log :
  length log = p →
  let res := scroll_loop env n (S p) c (after_passes env p) log in
  final res = after_passes env (length (rounds res)) ∧
  (p ≤ length (rounds res) ≤ p + n)%nat ∧
  (∀ i, (p < i ≤ length (rounds res))%nat → stop_at env i = false) ∧
  (exit res = Stopped → stop_at env (S (length (rounds res))) = true) ∧
  (exit res = MaxScrolls → length (rounds res) = (p + n)%nat).
Proof.
  revert p c log. induction n as [|n IH]; intros p c log Hlog res.
  - subst res. simpl. rewrite Hlog. split_and!; [done|lia|lia| |done..].
    intros i Hi. lia.
  - subst res. rewrite scroll_loop_S.
    destruct (stop_at env (S p)) eqn:Hstop.
    + simpl. rewrite Hlog. split_and!; [done|lia|lia| |done..].
      intros i Hi. lia.
    + destruct (scroll_pass (after_passes env p) (feed env (S p)))
        as [st1 new] eqn:E.
      assert (st1 = after_passes env (S p)) as ->.
      { cbn [after_passes]. by rewrite E. }
      assert (length (log ++ [new]) = S p) as Hlog'.
      { rewrite length_app. simpl. lia. }
      assert (∀ res' : loop_result,
                final res' = after_passes env (length (rounds res')) ∧
                (S p ≤ length (rounds res') ≤ S p + n)%nat ∧
                (∀ i, (S p < i ≤ length (rounds res'))%nat →
                      stop_at env i = false) ∧
                (exit res' = Stopped →
                 stop_at env (S (length (rounds res'))) = true) ∧
                (exit res' = MaxScrolls →
                 length (rounds res') = (S p + n)%nat) →
                final res' = after_passes env (length (rounds res')) ∧
                (p ≤ length (rounds res') ≤ p + S n)%nat ∧
                (∀ i, (p < i ≤ length (rounds res'))%nat →
                      stop_at env i = false) ∧
                (exit res' = Stopped →
                 stop_at env (S (length (rounds res'))) = true) ∧
                (exit res' = MaxScrolls →
                 length (rounds res') = (p + S n)%nat)) as Hweaken.
      { intros res' (H1 & H2 & H3 & H4 & H5).
        split_and!; [done|lia|lia| |done|].
        - intros i Hi. destruct (decide (i = S p)) as [->|Hne]; [done|].
          apply H3. lia.
        - intros He. rewrite H5 by done. lia. }
      destruct (0 <? new)%nat; [by apply Hweaken, IH|].
      destruct (5 <=? S c)%nat; [|by apply Hweaken, IH].
      simpl. rewrite Hlog'. split_and!; [done|lia|lia| |done..].
      intros i Hi. assert (i = S p) as -> by lia. done.
Qed.

Lemma scroll_loop_inv_feed (P : cstate → Prop) env n idx c st log :
  (∀ st k a i, a ∈ feed env i → P st → P (fst (item_step (st, k) a))) →
  P st → P (final (scroll_loop env n idx c st log)).
Proof.
  intros Hstep. revert idx c st log.
  induction n as [|n IH]; intros idx c st log HP; [done|].
  rewrite scroll_loop_S.
  destruct (stop_at env idx); [done|].
  destruct (scroll_pass st (feed env idx)) as [st1 new] eqn:E.
  assert (P st1) as HP1.
  { change st1 with (fst (st1, new)). rewrite <-E.
    apply scroll_pass_inv; eauto. }
  destruct (0 <? new)%nat; [by apply IH|].
  destruct (5 <=? S c)%nat; [exact HP1|by apply IH].
Qed.

(** Every dict in the store is what [_parse_tweet] made of an element the
    page showed. *)
Lemma store_provenance env n idx c log t :
  t ∈ store (final (scroll_loop env n idx c empty_cstate log)) →
  ∃ i a, a ∈ feed env i ∧ _parse_tweet a = Ok t.
Proof.
  revert t.
  apply (scroll_loop_inv_feed
           (λ st, ∀ t, t ∈ store st →
                       ∃ i a, a ∈ feed env i ∧ _parse_tweet a = Ok t)).
  - intros st k a i Ha HP t.
    destruct (item_step_cases st k a)
      as [(e & _ & ->)|[(t0 & Hp & _ & ->)|(t0 & Hp & _ & ->)]]; simpl.
    + apply HP.
    + intros [Ht| ->%list_elem_of_singleton]%elem_of_app; eauto.
    + intros [Ht| ->%list_elem_of_singleton]%elem_of_app; eauto.
  - intros t Ht. by apply elem_of_nil in Ht.
Qed.

(** The references in [bookmarks] are distinct. *)
Lemma bookmarks_NoDup env n idx c log :
  NoDup (bookmarks (final (scroll_loop env n idx c empty_cstate log))).
Proof.
  cut (let st := final (scroll_loop env n idx c empty_cstate log) in
       Forall (λ r, (r < length (store st))%nat) (bookmarks st) ∧
       NoDup (bookmarks st)); [by intros [_ ?]|].
  apply (scroll_loop_inv
           (λ st, Forall (λ r, (r < length (store st))%nat) (bookmarks st)
                  ∧ NoDup (bookmarks st))).
  - intros st k a [Hv Hnd].
    destruct (item_step_cases st k a)
      as [(e & _ & ->)|[(t0 & _ & _ & ->)|(t0 & _ & _ & ->)]]; simpl.
    + done.
    + split; [|done]. eapply Forall_impl; [exact Hv|].
      intros r Hr. simpl in *. rewrite length_app. simpl. lia.
    + split.
      * apply Forall_app. split.
        -- eapply Forall_impl; [exact Hv|].
           intros r Hr. simpl in *. rewrite length_app. simpl. lia.
        -- constructor; [|constructor]. rewrite length_app. simpl. lia.
      * apply NoDup_app. split_and!; [done| |apply NoDup_singleton].
        intros r Hr ->%list_elem_of_singleton.
        eapply Forall_forall in Hv; [|exact Hr]. simpl in Hv. lia.
  - split; constructor.
Qed.

(** The fetch loop writes the fetched text into the dicts it is given and
    leaves the others alone. *)
Lemma fetch_articles_lookup site (refs : list nat) (store : list tweet)
    b writes store' b' writes' r t :
  NoDup refs →
  fetch_articles site refs (store, b, writes) = (store', b', writes') →
  store !! r = Some t →
  (r ∉ refs → store' !! r = Some t) ∧
  (r ∈ refs →
     ∃ b0, store' !! r =
             Some (set_article_text
                     (fst (fetch_article_content site b0 (article_url t)))
                     t)).
Proof.
  intros Hnd. revert store b writes t.
  induction Hnd as [|r0 refs Hnin Hnd IH]; intros store b writes t Hf Hr.
  - simpl in Hf. injection Hf as <- <- <-.
    split; [done|]. intros Hin. by apply elem_of_nil in Hin.
  - simpl in Hf. destruct (store !! r0) as [t0|] eqn:Ht0.
    + destruct (fetch_article_content site b (article_url t0))
        as [v b1] eqn:Hv.
      destruct (decide (r = r0)) as [->|Hne].
      * assert (t0 = t) as -> by congruence.
        destruct (IH _ _ _ (set_article_text v t) Hf) as [Hout _].
        { apply list_lookup_insert_eq. by eapply lookup_lt_Some. }
        split; [intros Hn; exfalso; apply Hn, list_elem_of_here|].
        intros _. exists b. rewrite Hv. simpl. by apply Hout.
      * destruct (IH _ _ _ t Hf) as [Hout Hin].
        { by rewrite list_lookup_insert_ne. }
        split.
        -- intros Hn. apply Hout. intros Hin'. apply Hn.
           by apply list_elem_of_further.
        -- intros [?|Hin']%elem_of_cons; [done|]. by apply Hin.
    + destruct (IH _ _ _ t Hf Hr) as [Hout Hin].
      assert (r ≠ r0) as Hne by congruence.
      split.
      * intros Hn. apply Hout. intros Hin'. apply Hn.
        by apply list_elem_of_further.
      * intros [?|Hin']%elem_of_cons; [done|]. by apply Hin.
Qed.

Lemma NoDup_List_filter {A} (f : A → bool) (l : list A) :
  NoDup l → NoDup (List.filter f l).
Proof.
  induction 1 as [|x l Hx _ IH]; [constructor|].
  simpl. destruct (f x); [|done].
  apply NoDup_cons. split; [|done].
  intros Hin. apply Hx.
  apply list_elem_of_In, filter_In in Hin as [Hin _].
  by apply list_elem_of_In.
Qed.

(** The shape of what [collect_bookmarks] leaves once the loop has run. *)
Lemma collect_shape land env late site b max_scrolls no_art :
  let c := collect_bookmarks land env late site b max_scrolls no_art in
  match c_loop c with
  | None => c_bookmarks c = []
  | Some res =>
      res = scroll_loop env (Z.to_nat max_scrolls) 1 0 empty_cstate [] ∧
      c_bookmarks c = bookmarks (final res) ∧
      if negb no_art && negb (cancelled c late)
      then fetch_articles site
             (List.filter (has_article (store (final res)))
                (bookmarks (final res)))
             (store (final res), b, [])
           = (c_store c, c_browser c, c_writes c)
      else c_store c = store (final res) ∧ c_writes c = []
  end.
Proof.
  unfold cancelled, collect_bookmarks.
  destruct (_is_login_page _); [done|].
  destruct (wait_for_tweets land); [|done].
  set (res := scroll_loop env (Z.to_nat max_scrolls) 1 0 empty_cstate []).
  destruct (negb no_art && negb _) eqn:E.
  - destruct (fetch_articles _ _ _) as [[store' b'] writes'] eqn:Hf.
    simpl. by rewrite E.
  - simpl. by rewrite E.
Qed.

Lemma parse_tweet_article_text a t :
  _parse_tweet a = Ok t → article_text t = "".
Proof.
  unfold _parse_tweet. destruct a as [d|e]; [|done].
  destruct (scan_anchors _ _) as [[raw art_url]|e]; simpl; [|done].
  by intros [= <-].
Qed.

Lemma elem_of_article_bookmarks (store : list tweet) (refs : list nat)
    r t :
  store !! r = Some t →
  r ∈ List.filter (has_article store) refs ↔
  r ∈ refs ∧ article_url t ≠ "".
Proof.
  intros Hr. rewrite !list_elem_of_In, filter_In.
  unfold has_article. rewrite Hr.
  destruct (article_url t); simpl; intuition congruence.
Qed.

(** *** The loop, element by element *)

(** What an element does to the collection does not depend on the count
    of new tweets. *)
Lemma item_step_fst st k k' a :
  fst (item_step (st, k) a) = fst (item_step (st, k') a).
Proof.
  destruct (_parse_tweet a) as [t|e] eqn:Hp.
  - destruct (decide (tid_of t ∈ seen_ids st)) as [Hin|Hin].
    + by rewrite !(item_step_seen _ _ _ _ Hp Hin).
    + by rewrite !(item_step_new _ _ _ _ Hp Hin).
  - by rewrite !(item_step_raise _ _ _ _ Hp).
Qed.

Lemma foldl_item_step_fst l st k k' :
  fst (foldl item_step (st, k) l) = fst (foldl item_step (st, k') l).
Proof.
  revert st k k'. induction l as [|a l IH]; intros st k k'; [done|].
  simpl. pose proof (item_step_fst st k k' a) as E.
  destruct (item_step (st, k) a) as [s1 k1].
  destruct (item_step (st, k') a) as [s2 k2].
  simpl in E. subst s2. apply IH.
Qed.

Lemma shown_S env n : shown env (S n) = shown env n ++ feed env (S n).
Proof.
  unfold shown. rewrite seq_S, fmap_app, concat_app. simpl.
  by rewrite app_nil_r.
Qed.

(** Handling what [n] passes show, one element after the other, is
    running the [n] passes. *)
Lemma after_passes_shown env n :
  after_passes env n = fst (foldl item_step (empty_cstate, O) (shown env n)).
Proof.
  induction n as [|n IH]; [done|].
  rewrite shown_S, foldl_app. cbn [after_passes]. unfold scroll_pass.
  rewrite IH.
  destruct (foldl item_step (empty_cstate, O) (shown env n)) as [st k].
  apply foldl_item_step_fst.
Qed.

Lemma state_at_all env n m :
  (length (shown env n) ≤ m)%nat → state_at env n m = after_passes env n.
Proof.
  intros Hm. unfold state_at. rewrite take_ge by done.
  symmetry. apply after_passes_shown.
Qed.

Lemma state_at_S env n m a :
  shown env n !! m = Some a →
  state_at env n (S m) = fst (item_step (state_at env n m, O) a).
Proof.
  intros Ha. unfold state_at. rewrite (take_S_r _ _ _ Ha), foldl_app.
  simpl. destruct (foldl item_step _ (take m _)) as [st k].
  apply item_step_fst.
Qed.

(** An element that is handled leaves the dicts allocated so far, and the
    list of bookmarks so far, as they are. *)
Lemma item_step_keeps st k a :
  store st `prefix_of` store (fst (item_step (st, k) a)) ∧
  bookmarks st `prefix_of` bookmarks (fst (item_step (st, k) a)).
Proof.
  destruct (item_step_cases st k a)
    as [(e & _ & ->)|[(t & _ & _ & ->)|(t & _ & _ & ->)]]; simpl.
  - done.
  - split; [by apply prefix_app_r|done].
  - split; by apply prefix_app_r.
Qed.

Lemma state_at_keeps env n m m' :
  (m ≤ m')%nat →
  store (state_at env n m) `prefix_of` store (state_at env n m') ∧
  bookmarks (state_at env n m) `prefix_of` bookmarks (state_at env n m').
Proof.
  induction 1 as [|m' _ [IHs IHb]]; [done|].
  destruct (shown env n !! m') as [a|] eqn:Ha.
  - rewrite (state_at_S _ _ _ _ Ha).
    destruct (item_step_keeps (state_at env n m') O a) as [Hs Hb].
    split; etrans; eauto.
  - apply lookup_ge_None in Ha.
    rewrite (state_at_all env n (S m')) by lia.
    by rewrite <-(state_at_all env n m') by lia.
Qed.

(** The moment of the append: the element parses, the reference is the
    next free one, and the dict behind it is what [_parse_tweet] built. *)
Lemma state_at_append env n m a r :
  shown env n !! m = Some a →
  r ∉ bookmarks (state_at env n m) →
  r ∈ bookmarks (state_at env n (S m)) →
  ∃ t, _parse_tweet a = Ok t ∧ store (state_at env n (S m)) !! r = Some t.
Proof.
  intros Ha Hout Hin. rewrite (state_at_S _ _ _ _ Ha) in *.
  destruct (item_step_cases (state_at env n m) O a)
    as [(e & _ & E)|[(t & _ & _ & E)|(t & Hp & _ & E)]];
    rewrite E in *; simpl in *; [done..|].
  apply elem_of_app in Hin as [Hin|Hin]; [done|].
  apply list_elem_of_singleton in Hin as ->.
  exists t. split; [done|]. by apply list_lookup_middle.
Qed.

(** C8. A record that [collect_bookmarks] appends is, at that moment, the
    dict [_parse_tweet] built from the element being handled.  It stays
    that dict while the loop handles the elements that follow and when the
    loop is left, and it is the record behind the same reference in the
    list returned, equal to the parsed dict in [timestamp], [author_name],
    [author_handle], [text], [tweet_url], [article_url], [image_urls] and
    [urls_raw].  [article_text] is assigned at most once: exactly once,
    with what [fetch_article_content] returned for the [article_url] of the
    record, when articles are fetched, the run was not cancelled and the
    record has an [article_url]; otherwise never, and the record returned
    is the parsed dict. *)
Theorem appended_records_change_only_article_text land env late site b
    max_scrolls no_art res (m : nat) (a : art) (r : nat) :
  let c := collect_bookmarks land env late site b max_scrolls no_art in
  let n := length (rounds res) in
  c_loop c = Some res →
  shown env n !! m = Some a →
  r ∉ bookmarks (state_at env n m) →
  r ∈ bookmarks (state_at env n (S m)) →
  ∃ t t',
    _parse_tweet a = Ok t ∧
    (∀ m', (m < m')%nat → store (state_at env n m') !! r = Some t) ∧
    store (final res) !! r = Some t ∧
    r ∈ c_bookmarks c ∧ c_store c !! r = Some t' ∧
    timestamp t' = timestamp t ∧ author_name t' = author_name t ∧
    author_handle t' = author_handle t ∧ text t' = text t ∧
    tweet_url t' = tweet_url t ∧ article_url t' = article_url t ∧
    image_urls t' = image_urls t ∧ urls_raw t' = urls_raw t ∧
    NoDup (c_writes c) ∧
    (r ∈ c_writes c ↔
       no_art = false ∧ cancelled c late = false ∧ article_url t ≠ "") ∧
    (r ∉ c_writes c → t' = t) ∧
    (r ∈ c_writes c →
       ∃ b0, article_text t'
             = fst (fetch_article_content site b0 (article_url t))).
Proof.
  intros c n Hloop Ha Hout Hin.
  destruct (state_at_append env n m a r Ha Hout Hin) as (t & Hp & Hst).
  pose proof (collect_shape land env late site b max_scrolls no_art)
    as Hc. simpl in Hc. fold c in Hc. rewrite Hloop in Hc.
  destruct Hc as (Hres & Hbm & Hc).
  destruct (scroll_loop_trace env (Z.to_nat max_scrolls) 0 0 [] eq_refl)
    as (Hfinal & _).
  cbn [after_passes] in Hfinal. rewrite <-Hres in Hfinal. fold n in Hfinal.
  assert (∀ m', (m < m')%nat → store (state_at env n m') !! r = Some t)
    as Hlater.
  { intros m' Hm'.
    destruct (state_at_keeps env n (S m) m') as [Hs _]; [lia|].
    by eapply prefix_lookup_Some. }
  assert (store (final res) !! r = Some t) as Ht.
  { rewrite Hfinal, <-(state_at_all env n (S m + length (shown env n)))
      by lia.
    apply Hlater. lia. }
  assert (r ∈ bookmarks (final res)) as Hr.
  { rewrite Hfinal, <-(state_at_all env n (S m + length (shown env n)))
      by lia.
    destruct (state_at_keeps env n (S m) (S m + length (shown env n)))
      as [_ [k ->]]; [lia|].
    apply elem_of_app. by left. }
  pose proof (cinv_scroll_loop env (Z.to_nat max_scrolls) 1 0 []) as Hinv.
  pose proof (bookmarks_NoDup env (Z.to_nat max_scrolls) 1 0 []) as Hnd.
  rewrite <-Hres in Hinv, Hnd. destruct Hinv as (Hv & _ & _).
  exists t.
  destruct (negb no_art && negb (cancelled c late)) eqn:E.
  - apply andb_true_iff in E as [Hna Hnc].
    apply negb_true_iff in Hna, Hnc.
    destruct (fetch_articles_spec site
                (List.filter (has_article (store (final res)))
                   (bookmarks (final res)))
                (store (final res)) b [])
      as (store' & b' & Heq & _ & _).
    { by apply filter_has_article_valid. }
    rewrite Heq in Hc. injection Hc as Hs Hb Hw. simpl in Hw.
    destruct (fetch_articles_lookup site _ _ _ _ _ _ _ r t
                (NoDup_List_filter _ _ Hnd) Heq Ht) as [Hkeep Hset].
    rewrite <-Hw, <-Hs, Hbm.
    assert (r ∈ List.filter (has_article (store (final res)))
                  (bookmarks (final res)) ↔ article_url t ≠ "") as Hiff.
    { rewrite (elem_of_article_bookmarks _ _ r t Ht). tauto. }
    destruct (decide (article_url t = "")) as [Hno|Hyes].
    + exists t. rewrite Hkeep by (rewrite Hiff; tauto).
      split_and!; try done.
      * by apply NoDup_List_filter.
      * rewrite Hiff. tauto.
      * intros Hi. apply Hiff in Hi. done.
    + destruct Hset as [b0 Hb0]; [by apply Hiff|].
      eexists. rewrite Hb0.
      split_and!; try done.
      * by apply NoDup_List_filter.
      * rewrite Hiff. tauto.
      * intros Hn. exfalso. apply Hn. by apply Hiff.
      * intros _. by exists b0.
  - destruct Hc as [Hs Hw]. rewrite Hs, Hw, Hbm.
    exists t. split_and!; try done.
    + constructor.
    + split; [intros Hi; by apply elem_of_nil in Hi|].
      intros (-> & Hcn & _). rewrite Hcn in E. done.
    + intros Hi. by apply elem_of_nil in Hi.
Qed.

End frozen.

(** Alice's tweet is appended when the first element of the first pass is
    handled; five more passes show it again, the loop is left, its article
    is fetched, and the record returned differs from the parsed dict in
    [article_text] only. *)
Lemma appended_records_change_only_article_text_witness :
  let env := steady_feed [Rendered article_dom] in
  let site := plain_site " The body. " in
  let c := collect_bookmarks quiet_landing env false site no_pages 100
             false in
  ∃ t t',
    _parse_tweet (Rendered article_dom) = Ok t ∧
    (∀ m', (0 < m')%nat → store (state_at env 6 m') !! O = Some t) ∧
    store (final (scroll_loop env 100 1 0 empty_cstate [])) !! O = Some t ∧
    O ∈ c_bookmarks c ∧ c_store c !! O = Some t' ∧
    timestamp t' = timestamp t ∧ author_name t' = author_name t ∧
    author_handle t' = author_handle t ∧ text t' = text t ∧
    tweet_url t' = tweet_url t ∧ article_url t' = article_url t ∧
    image_urls t' = image_urls t ∧ urls_raw t' = urls_raw t ∧
    NoDup (c_writes c) ∧
    (O ∈ c_writes c ↔
       false = false ∧ cancelled c false = false ∧ article_url t ≠ "") ∧
    (O ∉ c_writes c → t' = t) ∧
    (O ∈ c_writes c →
       ∃ b0, article_text t'
             = fst (fetch_article_content site b0 (article_url t))).
Proof.
  intros env site c.
  assert (length (rounds (scroll_loop env 100 1 0 empty_cstate [])) = 6%nat)
    as Hn by (vm_compute; reflexivity).
  rewrite <-Hn.
  apply (appended_records_change_only_article_text quiet_landing
           (steady_feed [Rendered article_dom]) false
           (plain_site " The body. ") no_pages 100 false
           (scroll_loop (steady_feed [Rendered article_dom]) 100 1 0
              empty_cstate [])
           O (Rendered article_dom) O).
  - reflexivity.
  - reflexivity.
  - apply (bool_decide_unpack _). vm_compute. exact I.
  - apply (bool_decide_unpack _). vm_compute. exact I.
Defined.

(** ** Link resolution *)

Section resolver.
Variable head : string → result string.
Variable order : list string → list string.
Hypothesis order_perm : ∀ l, order l ≡ₚ l.

Lemma expand_tco_url_Ok u : ∃ r, expand_tco_url head u = Ok r.
Proof. unfold expand_tco_url. destruct (head u); eauto. Qed.

Lemma expand_tco_url_fallback u e :
  head u = Raise e → expand_tco_url head u = Ok u.
Proof. unfold expand_tco_url. by intros ->. Qed.

(** Collecting the results never fails and binds every URL it meets to
    its resolution. *)
Lemma collect_results l (m : gmap string string) :
  ∃ m',
    foldl (λ acc u,
             mapping ← acc;
             r ← expand_tco_url head u;
             mret (<[u := r]> mapping)) (Ok m) l = Ok m' ∧
    (∀ u, u ∈ l → ∃ r, expand_tco_url head u = Ok r ∧ m' !! u = Some r) ∧
    (∀ u, u ∉ l → m' !! u = m !! u).
Proof.
  revert m. induction l as [|u0 l IH]; intros m.
  - exists m. split_and!; [done| |done].
    intros u Hu. by apply elem_of_nil in Hu.
  - destruct (expand_tco_url_Ok u0) as [r0 Hr0].
    destruct (IH (<[u0 := r0]> m)) as (m' & Hm' & Hin & Hout).
    cbn [foldl].
    change (Ok m ≫= _) with
      (expand_tco_url head u0 ≫= λ r, mret (M:=result) (<[u0 := r]> m)).
    rewrite Hr0.
    change (Ok r0 ≫= _) with (Ok (<[u0 := r0]> m)).
    rewrite Hm'.
    exists m'. split_and!; [done| |].
    + intros u Hu. destruct (decide (u ∈ l)) as [Hl|Hl]; [by apply Hin|].
      apply elem_of_cons in Hu as [->|Hu]; [|done].
      exists r0. split; [done|].
      rewrite Hout by done. apply lookup_insert_eq.
    + intros u Hu. apply not_elem_of_cons in Hu as [Hne Hu].
      rewrite Hout by done. by rewrite lookup_insert_ne.
Qed.

(** The batch always succeeds; its mapping has exactly the t.co URLs. *)
Lemma expand_urls_parallel_spec urls :
  ∃ m,
    expand_urls_parallel head order urls = Ok m ∧
    (∀ u, u ∈ urls → Py.contains "t.co/" u = true →
          ∃ r, expand_tco_url head u = Ok r ∧ m !! u = Some r) ∧
    (∀ u, Py.contains "t.co/" u = false → m !! u = None).
Proof.
  unfold expand_urls_parallel.
  set (tco_urls := filter (λ u, Py.contains "t.co/" u = true) urls).
  destruct (collect_results (order tco_urls) ∅) as (m & Hm & Hin & Hout).
  assert (∀ u, u ∈ order tco_urls ↔
               u ∈ urls ∧ Py.contains "t.co/" u = true) as Hmem.
  { intros u. rewrite (order_perm tco_urls). unfold tco_urls.
    rewrite list_elem_of_filter. tauto. }
  destruct tco_urls as [|u1 tco'] eqn:E.
  - exists ∅. split_and!; [done| |done].
    intros u Hu Ht. exfalso.
    assert (u ∈ order []) as Hu' by (by apply Hmem).
    rewrite (order_perm []) in Hu'. by apply elem_of_nil in Hu'.
  - exists m. split_and!; [exact Hm| |].
    + intros u Hu Ht. apply Hin, Hmem. done.
    + intros u Ht. rewrite Hout; [done|].
      rewrite Hmem. intros [_ Ht']. congruence.
Qed.

Lemma elem_of_all_tco bookmarks b u :
  b ∈ bookmarks → u ∈ urls_raw b → Py.contains "t.co/" u = true →
  u ∈ all_tco bookmarks.
Proof.
  intros Hb Hu Ht. unfold all_tco.
  apply elem_of_elements, elem_of_list_to_set, list_elem_of_filter.
  split; [done|].
  apply list_elem_of_In, in_concat. exists (urls_raw b).
  split; [|by apply list_elem_of_In].
  apply list_elem_of_In, list_elem_of_fmap. eauto.
Qed.

(** C4. A URL whose lookup fails is mapped to itself and the batch still
    succeeds; the rows are built all the same and, in every record that
    has such a URL in [urls_raw], the entry of [urls_expanded] at its
    position is the URL unchanged, in the JSONL row as in the CSV row. *)
Theorem failed_lookup_keeps_url bookmarks U e :
  head U = Raise e →
  (∀ urls, U ∈ urls → Py.contains "t.co/" U = true →
     ∃ m, expand_urls_parallel head order urls = Ok m ∧ m !! U = Some U) ∧
  ∃ url_map,
    _build_rows head order bookmarks =
      Ok (csv_row_of url_map <$> bookmarks,
          jsonl_row_of url_map <$> bookmarks) ∧
    ∀ b, b ∈ bookmarks →
      Json.get "urls_expanded" (jsonl_row_of url_map b)
        = Some (str_list (expanded_of url_map b)) ∧
      Json.get "urls_expanded" (csv_row_of url_map b)
        = Some (JString (Py.join " | " (expanded_of url_map b))) ∧
      ∀ i, urls_raw b !! i = Some U →
           expanded_of url_map b !! i = Some U.
Proof.
  intros Hfail. split.
  - intros urls Hin Ht.
    destruct (expand_urls_parallel_spec urls) as (m & Hm & Hres & _).
    exists m. split; [done|].
    destruct (Hres U Hin Ht) as (r & Hr & HmU).
    rewrite (expand_tco_url_fallback U e Hfail) in Hr. congruence.
  - destruct (expand_urls_parallel_spec (all_tco bookmarks))
      as (m & Hm & Hres & Hnone).
    exists m. split.
    + unfold _build_rows. by rewrite Hm.
    + intros b Hb. split_and!; [reflexivity..|].
      intros i Hi. unfold expanded_of.
      rewrite list_lookup_fmap, Hi. simpl. f_equal.
      destruct (Py.contains "t.co/" U) eqn:Ht.
      * destruct (Hres U) as (r & Hr & ->); [|done|].
        { eapply elem_of_all_tco; [exact Hb| |done].
          by eapply list_elem_of_lookup_2. }
        rewrite (expand_tco_url_fallback U e Hfail) in Hr.
        simpl. congruence.
      * by rewrite Hnone.
Qed.

End resolver.

(** Every lookup fails and the shortened URL stays what it was. *)
Lemma failed_lookup_keeps_url_witness :
  ∃ m, expand_urls_parallel (λ _, Raise RequestException) id
         ["https://example.org/a"; "https://t.co/abc"] = Ok m ∧
       m !! "https://t.co/abc" = Some "https://t.co/abc".
Proof.
  apply (proj1 (failed_lookup_keeps_url (λ _, Raise RequestException) id
                  (λ l, reflexivity l) [article_tweet]
                  "https://t.co/abc" RequestException eq_refl)).
  - apply (bool_decide_unpack _). vm_compute. exact I.
  - reflexivity.
Defined.

(** ** The article fetcher *)

Section fetcher.
Variable site : article_site.

(** Whatever the [try] block raises, the caller gets the empty string. *)
Lemma fetch_article_content_failure b url e b' :
  fetch_article_try site b url = (Raise e, b') →
  fetch_article_content site b url = ("", b').
Proof. unfold fetch_article_content. by intros ->. Qed.

Lemma fetch_article_content_success b url text b' :
  fetch_article_try site b url = (Ok text, b') →
  fetch_article_content site b url = (text, b').
Proof. unfold fetch_article_content. by intros ->. Qed.

(** When the [try] block runs to its end the page it opened is closed. *)
Lemma fetch_article_try_success_closes b url text b' :
  fetch_article_try site b url = (Ok text, b') →
  next_page b ∉ open_pages b'.
Proof.
  unfold fetch_article_try.
  destruct (new_page_r site (next_page b)); [|done].
  destruct (goto_r _); [|done].
  destruct (article_body _) as [[el|]|]; [| |done].
  - destruct el; [|done]. destruct (close_r _); [|done].
    intros [= _ <-]. simpl. rewrite list_elem_of_filter. tauto.
  - destruct (article_tag _) as [[el|]|]; [| |done].
    + destruct el; [|done]. destruct (close_r _); [|done].
      intros [= _ <-]. simpl. rewrite list_elem_of_filter. tauto.
    + destruct (close_r _); [|done].
      intros [= _ <-]. simpl. rewrite list_elem_of_filter. tauto.
Qed.

(** When anything after [new_page] raises, the page stays open. *)
Lemma fetch_article_try_failure_leaks b url e b' :
  fetch_article_try site b url = (Raise e, b') →
  new_page_r site (next_page b) = Ok () →
  next_page b ∈ open_pages b'.
Proof.
  unfold fetch_article_try. intros Hf Hnp. rewrite Hnp in Hf. revert Hf.
  assert (next_page b ∈ open_pages b ++ [next_page b]) as Hin.
  { apply elem_of_app. right. apply list_elem_of_here. }
  destruct (goto_r _); [|by intros [= _ <-]].
  destruct (article_body _) as [[el|]|]; [| |by intros [= _ <-]].
  - destruct el; [|by intros [= _ <-]].
    destruct (close_r _); [done|by intros [= _ <-]].
  - destruct (article_tag _) as [[el|]|]; [| |by intros [= _ <-]].
    + destruct el; [|by intros [= _ <-]].
      destruct (close_r _); [done|by intros [= _ <-]].
    + destruct (close_r _); [done|by intros [= _ <-]].
Qed.

End fetcher.

(** C7, where the code departs from it. The article page opens as page 0,
    navigation to the article times out: [fetch_article_content] returns
    the empty string, as claimed, but page 0 is still open when it returns.
    The same happens when the text of the body cannot be read. *)
Theorem fetch_article_content_leaves_page_open :
  fetch_article_content stalled_site no_pages "https://x.com/i/articles/1"
    = ("", {| open_pages := [O]; next_page := 1%nat |}) ∧
  fetch_article_content unreadable_site no_pages "https://x.com/i/articles/1"
    = ("", {| open_pages := [O]; next_page := 1%nat |}).
Proof. split; reflexivity. Qed.

(** ** The tweet parser *)

Section parser.
Context `{UrlLib}.

Lemma sorted_Sorted (s : gset string) :
  StronglySorted String.le (Py.sorted s).
Proof. apply StronglySorted_merge_sort; apply _. Qed.

Lemma sorted_elem_of (s : gset string) u : u ∈ Py.sorted s ↔ u ∈ s.
Proof.
  unfold Py.sorted. rewrite merge_sort_Permutation. apply elem_of_elements.
Qed.

Lemma sorted_NoDup (s : gset string) : NoDup (Py.sorted s).
Proof.
  unfold Py.sorted. rewrite merge_sort_Permutation. apply NoDup_elements.
Qed.

Lemma is_article_url_unfold url :
  is_article_url url =
    match urlparse url with
    | Ok parsed =>
        Ok (Py.contains "/articles/" (path parsed)
            && (Py.endswith (Py.lower (netloc parsed)) "x.com"
                || Py.endswith (Py.lower (netloc parsed)) "twitter.com"))
    | Raise e => Raise e
    end.
Proof. unfold is_article_url. by destruct (urlparse url). Qed.

(** A URL of the site whose path has [/articles/] is an article URL. *)
Lemma is_article_url_own_domain url parsed :
  urlparse url = Ok parsed →
  Py.contains "/articles/" (path parsed) = true →
  Py.lower (netloc parsed) ∈ ["x.com"; "twitter.com"] →
  is_article_url url = Ok true.
Proof.
  intros Hp Hc Hn. rewrite is_article_url_unfold, Hp, Hc.
  apply elem_of_cons in Hn as [->|Hn]; [done|].
  apply list_elem_of_singleton in Hn as ->. done.
Qed.

(** An article URL has [/articles/] in its path. *)
Lemma is_article_url_path url :
  is_article_url url = Ok true →
  ∃ parsed, urlparse url = Ok parsed ∧
            Py.contains "/articles/" (path parsed) = true.
Proof.
  rewrite is_article_url_unfold. destruct (urlparse url) as [p|]; [|done].
  intros [= [Hc _]%andb_true_iff]. eauto.
Qed.

(** What one anchor does to [raw_urls] and [article_url]. *)
Lemma anchor_step_spec raw art el raw' art' :
  anchor_step (raw, art) el = Ok (raw', art') →
  (∀ u, u ∈ raw' ↔
        u ∈ raw ∨ (u = attr_or_empty el ∧ tracked_anchor u)) ∧
  art' = (if Py.truthy art then art
          else match is_article_url (attr_or_empty el) with
               | Ok true => attr_or_empty el
               | _ => ""
               end).
Proof.
  unfold anchor_step, tracked_anchor. set (href := attr_or_empty el).
  destruct (is_article_url href) as [[|]|e] eqn:Ha; simpl; [| |done].
  - destruct (Py.truthy art) eqn:Ht; simpl.
    + intros [= <- <-]. split; [|done].
      intros u. split; [tauto|]. intros [?|[-> [? _]]]; [done|congruence].
    + intros [= <- <-]. split; [|done].
      intros u. split; [tauto|]. intros [?|[-> [? _]]]; [done|congruence].
  - assert (art' = art →
            art' = if Py.truthy art then art else "") as Hart.
    { intros ->. by destruct art. }
    destruct (Py.contains "t.co" href) eqn:Ht.
    + intros [= <- <-]. split; [|by apply Hart].
      intros u. rewrite elem_of_union, elem_of_singleton.
      split; [intros [->|?]; [right|left]; tauto|].
      intros [?|[-> _]]; tauto.
    + destruct (urlparse href) as [parsed|e] eqn:Hp; simpl; [|done].
      case_bool_decide as Hn.
      * intros [= <- <-]. split; [|by apply Hart].
        intros u. rewrite elem_of_union, elem_of_singleton.
        split; [intros [->|?]; [right|left]; eauto 6|].
        intros [?|[-> _]]; tauto.
      * intros [= <- <-]. split; [|by apply Hart].
        intros u. split; [tauto|].
        intros [?|[-> [_ [?|(p & Hp' & Hn')]]]]; [done|congruence|].
        rewrite Hp in Hp'. injection Hp' as <-. done.
Qed.

Lemma scan_anchors_spec els raw art raw' art' :
  scan_anchors (raw, art) els = Ok (raw', art') →
  (∀ u, u ∈ raw' ↔
        u ∈ raw ∨ ∃ el, el ∈ els ∧ u = attr_or_empty el ∧ tracked_anchor u)
  ∧ art' = (if Py.truthy art then art else first_article els).
Proof.
  revert raw art. induction els as [|el els IH]; intros raw art.
  - intros [= <- <-]. split; [|by destruct art].
    intros u. split; [tauto|].
    intros [?|(el & Hel & _)]; [done|by apply elem_of_nil in Hel].
  - cbn [scan_anchors].
    destruct (anchor_step (raw, art) el) as [[raw1 art1]|e] eqn:Hs;
      [|done].
    cbn [mbind result_bind].
    intros Hrest. apply IH in Hrest as [Hraw Hart].
    apply anchor_step_spec in Hs as [Hraw1 Hart1]. split.
    + intros u. rewrite Hraw, Hraw1. split.
      * intros [[?|[-> Ht]]|(el' & Hel & -> & Ht)]; [tauto| |].
        -- right. exists el. split; [apply list_elem_of_here|done].
        -- right. exists el'. split; [by apply list_elem_of_further|done].
      * intros [?|(el' & Hel & -> & Ht)]; [tauto|].
        apply elem_of_cons in Hel as [->|Hel]; [tauto|].
        right. eauto.
    + rewrite Hart, Hart1. cbn [first_article].
      destruct (Py.truthy art) eqn:Ht; [by rewrite Ht|].
      destruct (is_article_url (attr_or_empty el)) as [[|]|]; [|done..].
      done.
Qed.

(** The record of a tweet that parses. *)
Lemma parse_tweet_rendered d t :
  _parse_tweet (Rendered d) = Ok t →
  StronglySorted String.le (urls_raw t) ∧ NoDup (urls_raw t) ∧
  article_url t = first_article (anchors d) ∧
  ∀ u, u ∈ urls_raw t ↔
       u ∈ Re.findall_urls (default "" (text_el d)) ∨
       ∃ el, el ∈ anchors d ∧ u = attr_or_empty el ∧ tracked_anchor u.
Proof.
  unfold _parse_tweet.
  destruct (scan_anchors _ _) as [[raw art]|e] eqn:Hs; [|done].
  cbn [mbind result_bind mret result_ret]. intros [= <-]. simpl.
  apply scan_anchors_spec in Hs as [Hraw Hart].
  split_and!; [apply sorted_Sorted|apply sorted_NoDup|exact Hart|].
  intros u. rewrite sorted_elem_of, Hraw, elem_of_list_to_set. done.
Qed.

End parser.

(** C5, where the code departs from it. The text of the tweet spells out
    the URL of its article and a URL of the site itself; the URL pattern
    picks both up and nothing filters them: [urls_raw], though sorted, holds
    the [article_url] of the record and a URL whose domain is [x.com]. *)
Theorem urls_raw_keeps_urls_found_in_text :
  ∃ t, _parse_tweet (Rendered self_link_dom) = Ok t ∧
       article_url t = "https://x.com/i/articles/1" ∧
       urls_raw t = ["https://x.com/home"; "https://x.com/i/articles/1"] ∧
       article_url t ∈ urls_raw t ∧
       (netloc <$> urlparse "https://x.com/home") = Ok "x.com".
Proof.
  eexists. split; [reflexivity|]. split_and!; [reflexivity..| |reflexivity].
  apply (bool_decide_unpack _). vm_compute. exact I.
Qed.

(** C6, where the code departs from it. The host [netflix.com] ends in
    [x.com], so its pages under [/articles/] are taken for article links of
    the site; in a tweet that links such a page before an article, the page
    becomes the [article_url]. *)
Theorem is_article_url_accepts_foreign_host :
  urlparse "https://netflix.com/articles/1" =
    Ok {| scheme := "https"; netloc := "netflix.com";
          path := "/articles/1" |} ∧
  is_article_url "https://netflix.com/articles/1" = Ok true ∧
  (article_url <$> _parse_tweet (Rendered foreign_article_dom))
    = Ok "https://netflix.com/articles/1".
Proof. split_and!; reflexivity. Qed.

(** ** Runs that collect nothing *)

Section cli.
Context `{UrlLib} `{FileSys}.

(** Logging in writes no file but the session file. *)
Lemma interactive_login_frame env af (fs : gmap string file) ok fs' :
  interactive_login env af fs = Some (ok, fs') →
  ∀ p, p ≠ af → fs' !! p = fs !! p.
Proof.
  unfold interactive_login. intros Hl p Hp.
  destruct (login_loop (polls env)) as [out|]; [|done].
  simpl in Hl.
  assert (∀ m : gmap string file,
            (<[af := SessionFile]> m) !! p = m !! p) as Hins.
  { intros m. by rewrite lookup_insert_ne. }
  destruct out, (storage_state_r env), (late_stop env),
    (storage_state_partial_r env); simpl in Hl;
    injection Hl as <- <-; by rewrite ?Hins.
Qed.



End cli.


(** ** The line-delimited output read back *)

Section strings.

Lemma app_String c (s t : string) : String c s +:+ t = String c (s +:+ t).
Proof. reflexivity. Qed.

Lemma app_empty_l (t : string) : "" +:+ t = t.
Proof. reflexivity. Qed.

Lemma app_empty_r (s : string) : s +:+ "" = s.
Proof. induction s as [|c s IH]; [done|]. by rewrite app_String, IH. Qed.

Lemma app_assoc_s (s t u : string) : (s +:+ t) +:+ u = s +:+ (t +:+ u).
Proof.
  induction s as [|c s IH]; [done|]. by rewrite !app_String, IH.
Qed.

Lemma length_app_s (s t : string) :
  String.length (s +:+ t) = (String.length s + String.length t)%nat.
Proof.
  induction s as [|c s IH]; [done|]. rewrite app_String. simpl. by rewrite IH.
Qed.

Lemma no_newline_app (s t : string) :
  no_newline (s +:+ t) = no_newline s && no_newline t.
Proof.
  induction s as [|c s IH]; [done|].
  rewrite app_String. simpl. rewrite IH. by rewrite andb_assoc.
Qed.

(** A text without newline, then a newline: one line. *)
Lemma lines_app_newline (s rest : string) :
  no_newline s = true →
  lines (s +:+ newline +:+ rest) = (s +:+ newline) :: lines rest.
Proof.
  induction s as [|c s IH]; intros Hs; [done|].
  simpl in Hs. apply andb_true_iff in Hs as [Hc Hs].
  rewrite !app_String. cbn [lines].
  destruct (Ascii.eqb c "010"); [done|].
  by rewrite (IH Hs).
Qed.

End strings.

Section json_strings.
Import Json.

Lemma scanstring_escape_char c r :
  scanstring (escape_char c +:+ r) = cons_char c (scanstring r).
Proof. destruct c as [[] [] [] [] [] [] [] []]; reflexivity. Qed.

Lemma scanstring_escape s r :
  scanstring (escape s +:+ String dquote r) = Some (s, r).
Proof.
  induction s as [|c s IH]; [reflexivity|].
  cbn [escape]. rewrite app_assoc_s, scanstring_escape_char, IH.
  reflexivity.
Qed.

Lemma no_newline_escape_char c : no_newline (escape_char c) = true.
Proof. destruct c as [[] [] [] [] [] [] [] []]; reflexivity. Qed.

Lemma no_newline_escape s : no_newline (escape s) = true.
Proof.
  induction s as [|c s IH]; [done|].
  cbn [escape]. by rewrite no_newline_app, no_newline_escape_char, IH.
Qed.

Lemma no_newline_encode_str s : no_newline (encode_str s) = true.
Proof.
  unfold encode_str. cbn [no_newline].
  by rewrite no_newline_app, no_newline_escape.
Qed.

Lemma encode_str_app s r :
  encode_str s +:+ r = String dquote (escape s +:+ String dquote r).
Proof. unfold encode_str. by rewrite app_String, app_assoc_s. Qed.

Lemma length_encode_str s : (2 ≤ String.length (encode_str s))%nat.
Proof.
  unfold encode_str. cbn [String.length]. rewrite length_app_s. simpl. lia.
Qed.

Lemma scan_once_string f s r :
  scan_once (S f) (encode_str s +:+ r) = Some (JString s, r).
Proof.
  rewrite encode_str_app. cbn [scan_once].
  change (Ascii.eqb dquote dquote) with true. cbv iota.
  by rewrite scanstring_escape.
Qed.

Lemma scan_once_null f r :
  scan_once (S f) ("null" +:+ r) = Some (JNull, r).
Proof. reflexivity. Qed.

End json_strings.

Section json_rows.
Import Json.

Lemma map_dumps_strings xs :
  map dumps (JString <$> xs) = encode_str <$> xs.
Proof.
  induction xs as [|x xs IH]; [done|].
  cbn [fmap list_fmap map]. by rewrite IH.
Qed.

Lemma join_cons_cons sep (x y : string) l :
  Py.join sep (x :: y :: l) = x +:+ sep +:+ Py.join sep (y :: l).
Proof. reflexivity. Qed.

Lemma join_singleton sep (x : string) : Py.join sep [x] = x.
Proof. reflexivity. Qed.

(** A non-empty list of encoded strings starts with a quote. *)
Lemma join_strings_head y ys tail :
  ∃ w, Py.join ", " (encode_str <$> (y :: ys)) +:+ tail = String dquote w.
Proof.
  destruct ys as [|z zs]; cbn [fmap list_fmap].
  - rewrite join_singleton, encode_str_app. eauto.
  - rewrite join_cons_cons, app_assoc_s, encode_str_app. eauto.
Qed.

Lemma scan_elements_S f s :
  scan_elements (S f) s =
    match scan_once f s with
    | None => None
    | Some (v, rest) =>
        match skip_ws rest with
        | String "]" rest' => Some ([v], rest')
        | String "," rest' =>
            match scan_elements f (skip_ws rest') with
            | Some (l, rest'') => Some (v :: l, rest'')
            | None => None
            end
        | _ => None
        end
    end.
Proof. reflexivity. Qed.

Lemma scan_elements_strings xs x f r :
  (String.length (Py.join ", " (encode_str <$> (x :: xs)) +:+ "]" +:+ r)
     ≤ f)%nat →
  scan_elements f (Py.join ", " (encode_str <$> (x :: xs)) +:+ "]" +:+ r)
    = Some (JString <$> (x :: xs), r).
Proof.
  revert x f. induction xs as [|y ys IH]; intros x f Hf.
  - cbn [fmap list_fmap] in *. rewrite join_singleton in *.
    pose proof (length_encode_str x) as Hx.
    rewrite length_app_s in Hf.
    destruct f as [|[|f]]; [lia..|].
    rewrite scan_elements_S, scan_once_string. reflexivity.
  - change (encode_str <$> x :: y :: ys)
      with (encode_str x :: (encode_str <$> y :: ys)) in *.
    change (JString <$> x :: y :: ys)
      with (JString x :: (JString <$> y :: ys)).
    cbn [fmap list_fmap] in Hf |- *.
    rewrite join_cons_cons, !app_assoc_s in Hf |- *.
    set (T := Py.join ", " _ +:+ "]" +:+ r) in *.
    pose proof (length_encode_str x) as Hx.
    rewrite !length_app_s in Hf.
    change (String.length ", ") with 2%nat in Hf.
    destruct f as [|[|f]]; [lia..|].
    rewrite scan_elements_S, scan_once_string.
    change (skip_ws (", " +:+ T)) with (String "," (String " " T)).
    cbv iota beta.
    change (skip_ws (String " " T)) with (skip_ws T).
    destruct (join_strings_head y ys ("]" +:+ r)) as [w Hw].
    change (encode_str y :: (encode_str <$> ys))
      with (encode_str <$> y :: ys) in T.
    fold T in Hw. rewrite Hw. change (skip_ws (String dquote w))
      with (String dquote w). rewrite <-Hw. unfold T.
    rewrite (IH y (S f)); [done|].
    fold T. lia.
Qed.

End json_rows.

Section json_objects.
Import Json.

Lemma dumps_str_list xs :
  dumps (str_list xs) = "[" +:+ Py.join ", " (encode_str <$> xs) +:+ "]".
Proof. unfold str_list. cbn [dumps]. by rewrite map_dumps_strings. Qed.

(** The text of a column value starts with a character that is not white
    space. *)
Lemma skip_ws_dumps_flat v tail :
  flat v → skip_ws (dumps v +:+ tail) = dumps v +:+ tail.
Proof.
  destruct 1 as [|s|xs].
  - reflexivity.
  - cbn [dumps]. by rewrite encode_str_app.
  - by rewrite dumps_str_list.
Qed.

Lemma scan_once_flat v f r :
  flat v → (String.length (dumps v +:+ r) ≤ f)%nat →
  scan_once f (dumps v +:+ r) = Some (v, r).
Proof.
  destruct 1 as [|s|xs]; intros Hf.
  - destruct f as [|f]; [simpl in Hf; lia|]. apply scan_once_null.
  - cbn [dumps] in *. pose proof (length_encode_str s).
    rewrite length_app_s in Hf.
    destruct f as [|f]; [lia|]. apply scan_once_string.
  - rewrite dumps_str_list in *. rewrite !app_assoc_s in *.
    rewrite app_String, app_empty_l in *.
    cbn [String.length] in Hf.
    destruct f as [|f]; [lia|].
    destruct xs as [|x xs].
    + reflexivity.
    + destruct (join_strings_head x xs ("]" +:+ r)) as [w Hw].
      pose proof (scan_elements_strings xs x f r) as He.
      rewrite Hw in *.
      change (scan_once (S f) (String "[" (String dquote w)))
        with (match scan_elements f (String dquote w) with
              | Some (l, rest) => Some (JArray l, rest)
              | None => None
              end).
      rewrite He by lia. reflexivity.
Qed.

Lemma dumps_object kvs :
  dumps (JObject kvs) = "{" +:+ Py.join ", " (map member_text kvs) +:+ "}".
Proof. reflexivity. Qed.

Lemma members_head kv kvs tail :
  ∃ w, Py.join ", " (map member_text (kv :: kvs)) +:+ tail
       = String dquote w.
Proof.
  destruct kvs as [|kv' kvs]; cbn [map]; unfold member_text at 1.
  - rewrite join_singleton, !app_assoc_s, encode_str_app. eauto.
  - rewrite join_cons_cons, !app_assoc_s, encode_str_app. eauto.
Qed.

(** The last member of an object. *)
Lemma scan_members_last f k v r :
  flat v → (String.length (dumps v +:+ "}" +:+ r) ≤ f)%nat →
  scan_members (S f) (encode_str k +:+ ": " +:+ dumps v +:+ "}" +:+ r)
    = Some ([(k, v)], r).
Proof.
  intros Hv Hf. rewrite encode_str_app. cbn [scan_members].
  change (Ascii.eqb dquote dquote) with true. cbv iota.
  rewrite scanstring_escape.
  change (skip_ws (": " +:+ ?t)) with (String ":" (String " " t)).
  cbv iota beta.
  change (skip_ws (String " " ?t)) with (skip_ws t).
  rewrite (skip_ws_dumps_flat v _ Hv), (scan_once_flat v f _ Hv Hf).
  reflexivity.
Qed.

(** A member that is followed by another one. *)
Lemma scan_members_more f k v w :
  flat v →
  (String.length (dumps v +:+ ", " +:+ String dquote w) ≤ f)%nat →
  scan_members (S f)
    (encode_str k +:+ ": " +:+ dumps v +:+ ", " +:+ String dquote w)
    = match scan_members f (String dquote w) with
      | Some (kvs, rest) => Some ((k, v) :: kvs, rest)
      | None => None
      end.
Proof.
  intros Hv Hf. rewrite encode_str_app. cbn [scan_members].
  change (Ascii.eqb dquote dquote) with true. cbv iota.
  rewrite scanstring_escape.
  change (skip_ws (": " +:+ ?t)) with (String ":" (String " " t)).
  cbv iota beta.
  change (skip_ws (String " " ?t)) with (skip_ws t).
  rewrite (skip_ws_dumps_flat v _ Hv), (scan_once_flat v f _ Hv Hf).
  reflexivity.
Qed.

Lemma scan_members_flat kvs kv f r :
  Forall (λ kv, flat (snd kv)) (kv :: kvs) →
  (String.length (Py.join ", " (map member_text (kv :: kvs)) +:+ "}" +:+ r)
     ≤ f)%nat →
  scan_members f (Py.join ", " (map member_text (kv :: kvs)) +:+ "}" +:+ r)
    = Some (kv :: kvs, r).
Proof.
  revert kv f. induction kvs as [|kv' kvs IH]; intros [k v] f Hfl Hf.
  - apply Forall_cons in Hfl as [Hv _]. simpl in Hv.
    cbn [map] in *. rewrite join_singleton in *.
    unfold member_text in *. cbn [fst snd] in *.
    rewrite !app_assoc_s in *.
    pose proof (length_encode_str k).
    rewrite (length_app_s (encode_str k)), (length_app_s ": ") in Hf.
    change (String.length ": ") with 2%nat in Hf.
    destruct f as [|f]; [lia|].
    apply scan_members_last; [done|lia].
  - apply Forall_cons in Hfl as [Hv Hfl]. simpl in Hv.
    cbn [map] in Hf |- *. rewrite join_cons_cons in *.
    destruct (members_head kv' kvs ("}" +:+ r)) as [w Hw].
    cbn [map] in Hw.
    specialize (IH kv'). cbn [map] in IH.
    set (T := Py.join ", " (member_text kv' :: map member_text kvs)
              +:+ "}" +:+ r) in *.
    unfold member_text at 1 in Hf. unfold member_text at 1.
    cbn [fst snd] in *. rewrite !app_assoc_s in *. fold T in Hf |- *.
    pose proof (length_encode_str k).
    rewrite (length_app_s (encode_str k)), (length_app_s ": "),
      (length_app_s (dumps v)), (length_app_s ", ") in Hf.
    change (String.length ": ") with 2%nat in Hf.
    change (String.length ", ") with 2%nat in Hf.
    destruct f as [|f]; [lia|].
    rewrite Hw, scan_members_more; [|done|].
    + rewrite <-Hw, IH; [done|done|lia].
    + rewrite <-Hw, (length_app_s (dumps v)), (length_app_s ", ").
      change (String.length ", ") with 2%nat. lia.
Qed.

Lemma scan_once_object kvs f r :
  Forall (λ kv, flat (snd kv)) kvs →
  (String.length (dumps (JObject kvs) +:+ r) ≤ f)%nat →
  scan_once f (dumps (JObject kvs) +:+ r) = Some (JObject kvs, r).
Proof.
  intros Hfl Hf. rewrite dumps_object in *. rewrite !app_assoc_s in *.
  rewrite app_String, app_empty_l in *. cbn [String.length] in Hf.
  destruct f as [|f]; [lia|].
  destruct kvs as [|kv kvs]; [reflexivity|].
  destruct (members_head kv kvs ("}" +:+ r)) as [w Hw].
  pose proof (scan_members_flat kvs kv f r Hfl) as Hm.
  rewrite Hw in *.
  change (scan_once (S f) (String "{" (String dquote w)))
    with (match scan_members f (String dquote w) with
          | Some (l, rest) => Some (JObject l, rest)
          | None => None
          end).
  rewrite Hm by lia. reflexivity.
Qed.

(** A line of the output decodes to the row it was written from. *)
Lemma loads_dumps_row kvs :
  Forall (λ kv, flat (snd kv)) kvs →
  loads (dumps (JObject kvs) +:+ newline) = Some (JObject kvs).
Proof.
  intros Hfl. unfold loads.
  assert (skip_ws (dumps (JObject kvs) +:+ newline)
          = dumps (JObject kvs) +:+ newline) as ->.
  { by rewrite dumps_object, !app_assoc_s. }
  rewrite scan_once_object; [done|done|lia].
Qed.

Lemma no_newline_dumps_flat v : flat v → no_newline (dumps v) = true.
Proof.
  destruct 1 as [|s|xs]; [done|apply no_newline_encode_str|].
  rewrite dumps_str_list, !no_newline_app.
  assert (no_newline (Py.join ", " (encode_str <$> xs)) = true) as ->;
    [|done].
  induction xs as [|x [|y ys] IH]; [done| |].
  - apply no_newline_encode_str.
  - cbn [fmap list_fmap] in *. rewrite join_cons_cons, !no_newline_app.
    by rewrite no_newline_encode_str, IH.
Qed.

Lemma no_newline_dumps_row kvs :
  Forall (λ kv, flat (snd kv)) kvs →
  no_newline (dumps (JObject kvs)) = true.
Proof.
  intros Hfl. rewrite dumps_object, !no_newline_app.
  assert (no_newline (Py.join ", " (map member_text kvs)) = true) as ->;
    [|done].
  induction Hfl as [|[k v] kvs Hv Hfl IH]; [done|].
  assert (no_newline (member_text (k, v)) = true) as Hkv.
  { unfold member_text. rewrite !no_newline_app. cbn [fst snd].
    by rewrite no_newline_encode_str, no_newline_dumps_flat. }
  destruct kvs as [|kv' kvs]; [exact Hkv|].
  cbn [map] in *. rewrite join_cons_cons, !no_newline_app.
  by rewrite Hkv, IH.
Qed.

(** The file read back: the rows, in order. *)
Lemma read_jsonl_text (rows : list row) :
  Forall (Forall (λ kv, flat (snd kv))) rows →
  read_jsonl (jsonl_text rows) = Some (JObject <$> rows).
Proof.
  unfold read_jsonl.
  induction 1 as [|kvs rows Hfl _ IH]; [done|].
  cbn [jsonl_text foldr]. fold (jsonl_text rows).
  rewrite lines_app_newline by by apply no_newline_dumps_row.
  cbn [mapM]. rewrite loads_dumps_row by done.
  cbn [mbind option_bind]. rewrite IH. reflexivity.
Qed.

End json_objects.

Section round_trip.
Context `{FileSys}.

Lemma flat_str_or_none o : flat (str_or_none o).
Proof. destruct o; constructor. Qed.

Lemma jsonl_row_flat url_map b :
  Forall (λ kv, flat (snd kv)) (jsonl_row_of url_map b).
Proof.
  unfold jsonl_row_of, base_of.
  repeat (apply Forall_cons; split; [simpl; auto using flat, flat_str_or_none|]).
  constructor.
Qed.

(** A write that returns has stored what it was given. *)
Lemma write_file_Ok path content (fs fs' : gmap string file) :
  write_file path content fs = (Ok (), fs') → fs' = <[path := content]> fs.
Proof.
  unfold write_file. destruct (open_w path); [|done].
  destruct (write_r path content); [|done]. by intros [= <-].
Qed.

(** C9. The JSONL file that [save_output] writes reads back, line by line
    with a JSON decoder, as the rows it was written from, and every line
    gives back the nine fields of its record: the scalar fields as the
    strings (or [None]) they were, [image_urls] and [urls_expanded] as the
    lists they were, empty strings and empty lists included. *)
Theorem jsonl_round_trip head order (fs : gmap string file) bookmarks
    stem fmt fs' :
  save_output head order fs bookmarks stem fmt = (Ok (), fs') →
  fmt_in fmt "jsonl" "both" = true →
  ∃ url_map content,
    fs' !! (stem +:+ ".jsonl") = Some (TextFile content) ∧
    read_jsonl content
      = Some (JObject <$> (jsonl_row_of url_map <$> bookmarks)) ∧
    ∀ b, b ∈ bookmarks →
      ∃ kvs,
        Json.loads (Json.dumps (JObject (jsonl_row_of url_map b))
                    +:+ newline) = Some (JObject kvs) ∧
        Json.get "timestamp" kvs = Some (str_or_none (timestamp b)) ∧
        Json.get "author_name" kvs = Some (JString (author_name b)) ∧
        Json.get "author_handle" kvs = Some (JString (author_handle b)) ∧
        Json.get "text" kvs = Some (JString (text b)) ∧
        Json.get "tweet_url" kvs = Some (JString (tweet_url b)) ∧
        Json.get "article_url" kvs = Some (JString (article_url b)) ∧
        Json.get "article_text" kvs = Some (JString (article_text b)) ∧
        Json.get "image_urls" kvs = Some (str_list (image_urls b)) ∧
        Json.get "urls_expanded" kvs
          = Some (str_list (expanded_of url_map b)).
Proof.
  unfold save_output, _build_rows. intros Hs Hfmt.
  destruct (expand_urls_parallel head order (all_tco bookmarks))
    as [url_map|e]; [|done].
  cbn [mbind result_bind mret result_ret] in Hs. rewrite Hfmt in Hs.
  destruct (if fmt_in fmt "csv" "both" then _ else _) as [[[]|e] fs1];
    [|done].
  apply write_file_Ok in Hs as ->.
  exists url_map, (jsonl_text (jsonl_row_of url_map <$> bookmarks)).
  split_and!.
  - apply lookup_insert_eq.
  - apply read_jsonl_text, Forall_fmap, Forall_forall.
    intros b _. apply jsonl_row_flat.
  - intros b _. exists (jsonl_row_of url_map b).
    split; [apply loads_dumps_row, jsonl_row_flat|].
    split_and!; reflexivity.
Qed.

End round_trip.

(** A blank tweet and Alice's tweet, written and read back. *)
Lemma jsonl_round_trip_witness :
  match save_output (λ u, Ok u) id ∅ [blank_tweet; article_tweet]
          "bookmarks" "jsonl" with
  | (Ok _, fs') =>
      ∃ url_map content,
        fs' !! "bookmarks.jsonl" = Some (TextFile content) ∧
        read_jsonl content
          = Some (JObject <$>
                    (jsonl_row_of url_map <$> [blank_tweet; article_tweet]))
  | (Raise _, _) => False
  end.
Proof.
  destruct (save_output (λ u, Ok u) id ∅ [blank_tweet; article_tweet]
              "bookmarks" "jsonl") as [[[]|e] fs'] eqn:Hs;
    [|vm_compute in Hs; discriminate Hs].
  destruct (jsonl_round_trip _ _ _ _ _ _ _ Hs eq_refl)
    as (url_map & content & Hf & Hr & _).
  exists url_map, content. split; [exact Hf|exact Hr].
Defined.


(** * Further properties of the code *)

(** ** More on the scroll loop *)

Section passes.
Context `{UrlLib}.

(** X1. An element that fails to parse leaves no trace in the pass: the other
    elements are handled as if it had not been there. *)
Theorem scroll_pass_skips_unparseable st l1 a l2 e :
  _parse_tweet a = Raise e →
  scroll_pass st (l1 ++ a :: l2) = scroll_pass st (l1 ++ l2).
Proof.
  intros Hp. unfold scroll_pass. rewrite !foldl_app. cbn [foldl].
  destruct (foldl item_step (st, O) l1) as [st1 n1].
  by rewrite (item_step_raise st1 n1 a e Hp).
Qed.

Lemma cinv_after_passes env k : cinv (after_passes env k).
Proof.
  induction k as [|k IH]; [apply cinv_empty|].
  cbn [after_passes]. apply scroll_pass_inv; [|done].
  intros. by apply cinv_item_step.
Qed.

(** X2. What the loop leaves is what the passes it ran have collected, and it
    runs at most [max_scrolls] passes. *)
Theorem scroll_loop_runs_whole_passes land env late site b max_scrolls
    no_art :
  match c_loop (collect_bookmarks land env late site b max_scrolls no_art)
  with
  | Some res =>
      final res = after_passes env (length (rounds res)) ∧
      (Z.of_nat (length (rounds res)) ≤ Z.max 0 max_scrolls)%Z ∧
      (∀ i, (1 ≤ i ≤ length (rounds res))%nat → stop_at env i = false)
  | None => True
  end.
Proof.
  pose proof (collect_shape land env late site b max_scrolls no_art) as Hc.
  simpl in Hc. destruct (c_loop _) as [res|]; [|done].
  destruct Hc as (-> & _ & _).
  destruct (scroll_loop_trace env (Z.to_nat max_scrolls) O O [] eq_refl)
    as (H1 & H2 & H3 & _).
  cbn [after_passes] in H1, H2, H3.
  set (res := scroll_loop env (Z.to_nat max_scrolls) 1 0 empty_cstate [])
    in *.
  split_and!; [exact H1|lia|].
  intros i Hi. apply H3. lia.
Qed.

End passes.

(** A stale handle between two tweets. *)
Lemma scroll_pass_skips_unparseable_witness :
  scroll_pass empty_cstate
    ([Rendered blank_dom] ++ Detached PlaywrightError :: [Rendered article_dom])
  = scroll_pass empty_cstate ([Rendered blank_dom] ++ [Rendered article_dom]).
Proof.
  apply (scroll_pass_skips_unparseable empty_cstate [Rendered blank_dom]
           (Detached PlaywrightError) [Rendered article_dom] PlaywrightError).
  reflexivity.
Defined.

Section counting.
Context `{UrlLib}.

Lemma foldl_item_step_count l st n st' n' :
  foldl item_step (st, n) l = (st', n') →
  (length (bookmarks st') + n = length (bookmarks st) + n')%nat.
Proof.
  revert st n. induction l as [|a l IH]; intros st n.
  - intros [= <- <-]. done.
  - cbn [foldl]. intros Hf.
    destruct (item_step_cases st n a)
      as [(e & _ & Hs)|[(t & _ & _ & Hs)|(t & _ & _ & Hs)]];
      rewrite Hs in Hf; apply IH in Hf; simpl in Hf.
    + done.
    + done.
    + rewrite length_app in Hf. simpl in Hf. lia.
Qed.

Lemma scroll_pass_count st l st' new :
  scroll_pass st l = (st', new) →
  length (bookmarks st') = (length (bookmarks st) + new)%nat.
Proof. intros Hs. apply foldl_item_step_count in Hs. lia. Qed.

Lemma scroll_loop_count env n idx c st log :
  let res := scroll_loop env n idx c st log in
  (length (bookmarks (final res)) + sum_list log
   = length (bookmarks st) + sum_list (rounds res))%nat.
Proof.
  revert idx c st log. induction n as [|n IH]; intros idx c st log res.
  - done.
  - subst res. rewrite scroll_loop_S.
    destruct (stop_at env idx); [done|].
    destruct (scroll_pass st (feed env idx)) as [st1 new] eqn:E.
    apply scroll_pass_count in E.
    assert (sum_list (log ++ [new]) = (sum_list log + new)%nat) as Hsum.
    { rewrite sum_list_with_app. simpl. lia. }
    destruct (0 <? new)%nat.
    + specialize (IH (S idx) O st1 (log ++ [new])). simpl in IH. lia.
    + destruct (5 <=? S c)%nat.
      * simpl. lia.
      * specialize (IH (S idx) (S c) st1 (log ++ [new])). simpl in IH. lia.
Qed.

Lemma length_records st :
  Forall (λ r, (r < length (store st))%nat) (bookmarks st) →
  length (records st) = length (bookmarks st).
Proof.
  unfold records. induction 1 as [|r refs Hr _ IH]; [done|].
  simpl. destruct (lookup_lt_is_Some_2 _ _ Hr) as [t ->]. simpl.
  f_equal. exact IH.
Qed.

(** X3. The numbers of new tweets reported for the passes add up to the number
    of records returned. *)
Theorem rounds_add_up_to_returned land env late site b max_scrolls no_art :
  let c := collect_bookmarks land env late site b max_scrolls no_art in
  match c_loop c with
  | Some res => sum_list (rounds res) = length (returned c)
  | None => returned c = []
  end.
Proof.
  intros c.
  pose proof (collect_returned land env late site b max_scrolls no_art)
    as Hc. simpl in Hc. fold c in Hc.
  destruct (c_loop c) as [res|]; [|done].
  destruct Hc as (Hres & _ & Hsame).
  rewrite <-(Forall2_length _ _ _ Hsame).
  pose proof (cinv_scroll_loop env (Z.to_nat max_scrolls) 1 0 []) as Hinv.
  pose proof (scroll_loop_count env (Z.to_nat max_scrolls) 1 0
                empty_cstate []) as Hcount.
  rewrite <-Hres in Hinv, Hcount. simpl in Hcount.
  destruct Hinv as (Hv & _ & _). rewrite length_records by done. lia.
Qed.

(** The log of a loop that has counted [c] stale passes in a row ends in
    [c] zeros; when the loop gives up, it ends in five. *)
Lemma scroll_loop_stale_tail env n idx c st log pre :
  log = pre ++ replicate c O →
  let res := scroll_loop env n idx c st log in
  exit res = Exhausted →
  ∃ pre', rounds res = pre' ++ replicate 5 O.
Proof.
  revert idx c st log pre. induction n as [|n IH];
    intros idx c st log pre Hlog res.
  - done.
  - subst res. rewrite scroll_loop_S.
    destruct (stop_at env idx); [done|].
    destruct (scroll_pass st (feed env idx)) as [st1 new].
    destruct (0 <? new)%nat eqn:Hnew.
    + apply (IH _ _ _ _ (log ++ [new])). simpl. by rewrite app_nil_r.
    + apply Nat.ltb_ge in Hnew. assert (new = O) as -> by lia.
      assert (log ++ [O] = pre ++ replicate (S c) O) as Hlog'.
      { rewrite Hlog, <-app_assoc. f_equal.
        by rewrite replicate_S_end. }
      destruct (5 <=? S c)%nat eqn:E.
      * intros _. cbn [rounds]. apply Nat.leb_le in E.
        exists (pre ++ replicate (S c - 5) O).
        rewrite Hlog', <-app_assoc, <-replicate_add.
        do 2 f_equal. lia.
      * by apply (IH _ _ _ _ pre).
Qed.

(** X4. When the loop is left for want of new tweets, its last five passes
    found none. *)
Theorem exhausted_after_five_empty_rounds land env late site b max_scrolls
    no_art res :
  c_loop (collect_bookmarks land env late site b max_scrolls no_art)
    = Some res →
  exit res = Exhausted →
  ∃ earlier, rounds res = earlier ++ [O; O; O; O; O].
Proof.
  intros Hc He.
  pose proof (collect_shape land env late site b max_scrolls no_art) as Hs.
  simpl in Hs. rewrite Hc in Hs. destruct Hs as (Hres & _ & _).
  rewrite Hres in He |- *.
  by apply (scroll_loop_stale_tail env _ 1 O empty_cstate [] []).
Qed.

End counting.

(** One tweet, then five passes that show it again. *)
Lemma exhausted_after_five_empty_rounds_witness :
  ∃ earlier,
    rounds (scroll_loop (steady_feed [Rendered blank_dom]) (Z.to_nat 100)
              1 0 empty_cstate [])
    = earlier ++ [O; O; O; O; O].
Proof.
  apply (exhausted_after_five_empty_rounds quiet_landing
           (steady_feed [Rendered blank_dom]) false (plain_site "") no_pages
           100 true).
  - reflexivity.
  - reflexivity.
Defined.

(** ** What a run keeps, and what it opens *)

Section keeping.
Context `{UrlLib}.

(** When the article phase is skipped nothing but the loop has happened. *)
Lemma collect_without_fetching land env late site b max_scrolls no_art res :
  let c := collect_bookmarks land env late site b max_scrolls no_art in
  c_loop c = Some res →
  negb no_art && negb (cancelled c late) = false →
  c_store c = store (final res) ∧ c_bookmarks c = bookmarks (final res) ∧
  c_writes c = [] ∧ c_browser c = b.
Proof.
  unfold cancelled, collect_bookmarks.
  destruct (_is_login_page _); [done|].
  destruct (wait_for_tweets land); [|done].
  set (res0 := scroll_loop env (Z.to_nat max_scrolls) 1 0 empty_cstate []).
  destruct (negb no_art && negb _) eqn:E.
  - destruct (fetch_articles _ _ _) as [[store' b'] writes']. simpl.
    intros _ E'. congruence.
  - simpl. by intros [= <-] _.
Qed.

(** X5. Ctrl+C during scrolling: the caller gets the records of the passes
    that were completed, as parsed, and no article page was opened. *)
Theorem cancelled_run_returns_completed_passes land env late site b
    max_scrolls no_art res :
  let c := collect_bookmarks land env late site b max_scrolls no_art in
  c_loop c = Some res → exit res = Stopped →
  returned c = records (after_passes env (length (rounds res))) ∧
  stop_at env (S (length (rounds res))) = true ∧
  c_writes c = [] ∧ c_browser c = b.
Proof.
  intros c Hc He.
  destruct (collect_without_fetching land env late site b max_scrolls
              no_art res Hc) as (Hs & Hb & Hw & Hbr).
  { unfold cancelled. fold c. rewrite Hc, He. by rewrite andb_false_r. }
  pose proof (collect_shape land env late site b max_scrolls no_art) as Hsh.
  simpl in Hsh. fold c in Hsh. rewrite Hc in Hsh.
  destruct Hsh as (Hres & _ & _).
  destruct (scroll_loop_trace env (Z.to_nat max_scrolls) O O [] eq_refl)
    as (H1 & _ & _ & H4 & _).
  cbn [after_passes] in H1, H4. rewrite <-Hres in H1, H4.
  split_and!; [|by apply H4|done..].
  unfold returned, records. subst c. rewrite Hs, Hb, <-H1. done.
Qed.

Lemma item_step_records_prefix st n a :
  cinv st → records st `prefix_of` records (fst (item_step (st, n) a)).
Proof.
  intros (Hv & _ & _).
  destruct (item_step_cases st n a)
    as [(e & _ & ->)|[(t & _ & _ & ->)|(t & _ & _ & ->)]]; simpl.
  - done.
  - by rewrite records_alloc.
  - rewrite records_append by done. by apply prefix_app_r.
Qed.

(** X6. Scrolling on never drops or reorders what was collected: the records
    after [k] passes are the first records after any later pass. *)
Theorem collected_records_only_grow env k j :
  records (after_passes env k) `prefix_of` records (after_passes env (k + j)).
Proof.
  induction j as [|j IH].
  - by rewrite Nat.add_0_r.
  - replace (k + S j)%nat with (S (k + j)) by lia. cbn [after_passes].
    cut (cinv (fst (scroll_pass (after_passes env (k + j))
                      (feed env (S (k + j))))) ∧
         records (after_passes env k) `prefix_of`
           records (fst (scroll_pass (after_passes env (k + j))
                           (feed env (S (k + j)))))); [by intros [_ ?]|].
    apply (scroll_pass_inv
             (λ st, cinv st ∧
                    records (after_passes env k) `prefix_of` records st)).
    + intros st n a _ [Hinv Hpre]. split; [by apply cinv_item_step|].
      etrans; [exact Hpre|]. by apply item_step_records_prefix.
    + split; [apply cinv_after_passes|exact IH].
Qed.

(** Every key in [seen_ids] is the key of a collected record. *)
Lemma seen_ids_have_records st n a :
  cinv st ∧ (∀ x, x ∈ seen_ids st → ∃ t, t ∈ records st ∧ tid_of t = x) →
  let st' := fst (item_step (st, n) a) in
  cinv st' ∧ (∀ x, x ∈ seen_ids st' → ∃ t, t ∈ records st' ∧ tid_of t = x).
Proof.
  intros [Hinv Hseen] st'. split; [by apply cinv_item_step|].
  subst st'. destruct Hinv as (Hv & _ & _).
  destruct (item_step_cases st n a)
    as [(e & _ & ->)|[(t & _ & _ & ->)|(t & _ & _ & ->)]]; simpl.
  - done.
  - rewrite records_alloc by done. exact Hseen.
  - rewrite records_append by done. intros x Hx.
    apply elem_of_union in Hx as [->%elem_of_singleton|Hx].
    + exists t. split; [|done]. apply elem_of_app. right.
      apply list_elem_of_here.
    + destruct (Hseen x Hx) as (t' & Ht' & <-). exists t'.
      split; [|done]. apply elem_of_app. by left.
Qed.

Lemma item_step_seen_mono st n a x :
  x ∈ seen_ids st → x ∈ seen_ids (fst (item_step (st, n) a)).
Proof.
  intros Hx.
  destruct (item_step_cases st n a)
    as [(e & _ & ->)|[(t & _ & _ & ->)|(t & _ & _ & ->)]]; simpl;
    set_solver.
Qed.

Lemma item_step_records_key st n a t :
  _parse_tweet a = Ok t → tid_of t ∈ seen_ids (fst (item_step (st, n) a)).
Proof.
  intros Hp.
  destruct (item_step_cases st n a)
    as [(e & Hp' & _)|[(t' & Hp' & Hin & ->)|(t' & Hp' & _ & ->)]].
  - congruence.
  - assert (t' = t) as -> by congruence. done.
  - assert (t' = t) as -> by congruence. simpl. set_solver.
Qed.

Lemma foldl_item_step_keys l acc a t :
  a ∈ l → _parse_tweet a = Ok t →
  tid_of t ∈ seen_ids (fst (foldl item_step acc l)).
Proof.
  revert acc. induction l as [|a0 l IH]; intros [st n] Ha Hp.
  - by apply elem_of_nil in Ha.
  - cbn [foldl]. apply elem_of_cons in Ha as [->|Ha]; [|by apply IH].
    apply (foldl_item_step_inv (λ st, tid_of t ∈ seen_ids st)).
    + intros st' n' a' _. apply item_step_seen_mono.
    + pose proof (item_step_records_key st n a0 t Hp) as Hk.
      by destruct (item_step (st, n) a0).
Qed.

Lemma after_passes_seen_mono env k j x :
  x ∈ seen_ids (after_passes env k) →
  x ∈ seen_ids (after_passes env (k + j)).
Proof.
  intros Hx. induction j as [|j IH].
  - by rewrite Nat.add_0_r.
  - replace (k + S j)%nat with (S (k + j)) by lia. cbn [after_passes].
    apply (scroll_pass_inv (λ st, x ∈ seen_ids st)); [|done].
    intros st n a _. apply item_step_seen_mono.
Qed.

(** X7. Nothing the page showed is lost: for every element of a pass that ran
    and that parses, a record with the same dedup key is returned. *)
Theorem every_shown_tweet_is_represented land env late site b max_scrolls
    no_art res i a t :
  let c := collect_bookmarks land env late site b max_scrolls no_art in
  c_loop c = Some res →
  (1 ≤ i ≤ length (rounds res))%nat → a ∈ feed env i →
  _parse_tweet a = Ok t →
  ∃ t', t' ∈ returned c ∧ tid_of t' = tid_of t.
Proof.
  intros c Hc Hi Ha Hp.
  pose proof (collect_returned land env late site b max_scrolls no_art)
    as Hr. simpl in Hr. fold c in Hr. rewrite Hc in Hr.
  destruct Hr as (Hres & _ & Hsame).
  destruct (scroll_loop_trace env (Z.to_nat max_scrolls) O O [] eq_refl)
    as (H1 & _). cbn [after_passes] in H1. rewrite <-Hres in H1.
  assert (tid_of t ∈ seen_ids (final res)) as Hseen.
  { rewrite H1.
    replace (length (rounds res)) with (i + (length (rounds res) - i))%nat
      by lia.
    apply after_passes_seen_mono.
    destruct i as [|i]; [lia|]. cbn [after_passes]. unfold scroll_pass.
    by eapply foldl_item_step_keys. }
  assert (∀ x, x ∈ seen_ids (final res) →
               ∃ t0, t0 ∈ records (final res) ∧ tid_of t0 = x) as Hrec.
  { rewrite Hres.
    cut (let st := final (scroll_loop env (Z.to_nat max_scrolls) 1 0
                            empty_cstate []) in
         cinv st ∧ ∀ x, x ∈ seen_ids st →
                        ∃ t0, t0 ∈ records st ∧ tid_of t0 = x);
      [by intros [_ ?]|].
    apply (scroll_loop_inv
             (λ st, cinv st ∧ ∀ x, x ∈ seen_ids st →
                                   ∃ t0, t0 ∈ records st ∧ tid_of t0 = x)).
    - intros st k a0. apply seen_ids_have_records.
    - split; [apply cinv_empty|]. intros x Hx. set_solver. }
  destruct (Hrec _ Hseen) as (t0 & Ht0 & Hk).
  apply list_elem_of_lookup in Ht0 as [n Hn].
  destruct (Forall2_lookup_l _ _ _ _ _ Hsame Hn) as (t' & Hn' & Hs).
  exists t'. split; [by eapply list_elem_of_lookup_2|].
  by rewrite <-(same_but_article_text_tid _ _ Hs).
Qed.

Lemma fetch_article_content_next_page site b url :
  (next_page (snd (fetch_article_content site b url)) ≤ S (next_page b))%nat.
Proof.
  unfold fetch_article_content, fetch_article_try.
  destruct (new_page_r site (next_page b)); [|simpl; lia].
  destruct (goto_r _); [|simpl; lia].
  destruct (article_body _) as [[[?|?]|]|]; simpl; try lia.
  - destruct (close_r _); simpl; lia.
  - destruct (article_tag _) as [[[?|?]|]|]; simpl; try lia;
      destruct (close_r _); simpl; lia.
Qed.

Lemma fetch_articles_next_page site (refs : list nat) (store : list tweet)
    b writes store' b' writes' :
  fetch_articles site refs (store, b, writes) = (store', b', writes') →
  (next_page b' + length writes ≤ next_page b + length writes')%nat.
Proof.
  revert store b writes. induction refs as [|r refs IH];
    intros store b writes.
  - intros [= <- <- <-]. lia.
  - simpl. destruct (store !! r) as [t|]; [|apply IH].
    pose proof (fetch_article_content_next_page site b (article_url t)) as Hn.
    destruct (fetch_article_content site b (article_url t)) as [v b1].
    intros Hf. apply IH in Hf. rewrite length_app in Hf. simpl in *. lia.
Qed.

(** X8. The assignments of [article_text] go to distinct records of the
    list returned, each with an [article_url]: no record is assigned
    twice.  At most one auxiliary page is opened per assignment, and with
    [--no-articles] nothing is assigned and the browser is left as it
    was. *)
Theorem article_pages_are_bounded land env late site b max_scrolls no_art :
  let c := collect_bookmarks land env late site b max_scrolls no_art in
  NoDup (c_writes c) ∧
  (∀ r, r ∈ c_writes c →
        r ∈ c_bookmarks c ∧
        ∃ t, c_store c !! r = Some t ∧ article_url t ≠ "") ∧
  (length (c_writes c) ≤ length (returned c))%nat ∧
  (next_page (c_browser c) ≤ next_page b + length (c_writes c))%nat ∧
  (no_art = true → c_browser c = b ∧ c_writes c = []).
Proof.
  intros c.
  pose proof (collect_shape land env late site b max_scrolls no_art) as Hsh.
  pose proof (collect_returned land env late site b max_scrolls no_art)
    as Hr. simpl in Hsh, Hr. fold c in Hsh, Hr.
  destruct (c_loop c) as [res|] eqn:Hc.
  - destruct Hsh as (Hres & Hb & Hsh). destruct Hr as (_ & _ & Hsame).
    pose proof (cinv_scroll_loop env (Z.to_nat max_scrolls) 1 0 []) as Hinv.
    pose proof (bookmarks_NoDup env (Z.to_nat max_scrolls) 1 0 []) as Hnd.
    rewrite <-Hres in Hinv, Hnd. destruct Hinv as (Hv & _ & _).
    destruct (negb no_art && negb (cancelled c late)) eqn:E.
    + destruct (fetch_articles_spec site
                  (List.filter (has_article (store (final res)))
                     (bookmarks (final res)))
                  (store (final res)) b [])
        as (store' & b' & Heq & _ & Hkept);
        [by apply filter_has_article_valid|].
      pose proof (fetch_articles_next_page _ _ _ _ _ _ _ _ Hsh) as Hn.
      rewrite Hsh in Heq. injection Heq as Hs _ Hw. simpl in Hw, Hn.
      split_and!.
      * rewrite Hw. by apply NoDup_List_filter.
      * intros r. rewrite Hw, Hb, Hs.
        intros [Hin Hart]%list_elem_of_In%filter_In.
        apply list_elem_of_In in Hin. split; [done|].
        unfold has_article in Hart. specialize (Hkept r).
        destruct (store (final res) !! r) as [t0|]; [|done].
        inversion Hkept as [t1 t Hsb|]; subst.
        exists t. split; [done|].
        assert (article_url t = article_url t0) as ->.
        { unfold same_but_article_text in Hsb.
          by apply (f_equal article_url) in Hsb. }
        intros Hno. by rewrite Hno in Hart.
      * rewrite <-(Forall2_length _ _ _ Hsame), length_records by done.
        rewrite Hw. apply filter_length_le.
      * lia.
      * intros ->. done.
    + destruct (collect_without_fetching land env late site b max_scrolls
                  no_art res Hc E) as (_ & _ & Hw & Hbr).
      fold c in Hw, Hbr. rewrite Hw, Hbr. simpl.
      split_and!; [constructor| |lia|lia|done].
      intros r Hin. by apply elem_of_nil in Hin.
  - assert (c = nothing_collected b) as ->.
    { subst c. revert Hc. unfold collect_bookmarks.
      destruct (_is_login_page _); [done|].
      destruct (wait_for_tweets land); [|done].
      destruct (negb no_art && negb _); [|done].
      by destruct (fetch_articles _ _ _) as [[? ?] ?]. }
    simpl. split_and!; [constructor| |lia|lia|done].
    intros r Hin. by apply elem_of_nil in Hin.
Qed.

End keeping.

(** Ctrl+C is seen at the top of pass 2: the tweet of pass 1 is returned
    and its article is not fetched. *)
Lemma cancelled_run_returns_completed_passes_witness :
  let env := interrupted_feed [Rendered article_dom] in
  let c := collect_bookmarks quiet_landing env false (plain_site "text")
             no_pages 100 false in
  let res := scroll_loop env (Z.to_nat 100) 1 0 empty_cstate [] in
  returned c = records (after_passes env (length (rounds res))) ∧
  stop_at env (S (length (rounds res))) = true ∧
  c_writes c = [] ∧ c_browser c = no_pages.
Proof.
  apply (cancelled_run_returns_completed_passes quiet_landing
           (interrupted_feed [Rendered article_dom]) false
           (plain_site "text") no_pages 100 false).
  - reflexivity.
  - reflexivity.
Defined.

(** The blank tweet shown in pass 3 is represented in the result. *)
Lemma every_shown_tweet_is_represented_witness :
  ∃ t', t' ∈ returned (collect_bookmarks quiet_landing
                         (steady_feed [Rendered blank_dom]) false
                         (plain_site "") no_pages 100 true) ∧
        tid_of t' = tid_of blank_tweet.
Proof.
  apply (every_shown_tweet_is_represented quiet_landing
           (steady_feed [Rendered blank_dom]) false (plain_site "") no_pages
           100 true
           (scroll_loop (steady_feed [Rendered blank_dom]) (Z.to_nat 100)
              1 0 empty_cstate [])
           3%nat (Rendered blank_dom) blank_tweet).
  - reflexivity.
  - vm_compute. split; lia.
  - apply list_elem_of_here.
  - reflexivity.
Defined.

Section nothing.
Context `{UrlLib}.

(** X9. A login wall, tweets that do not show up in time, or a [max_scrolls]
    that is not positive: the result is empty and no page was opened. *)
Theorem nothing_to_collect land env late site b max_scrolls no_art :
  _is_login_page (real_url (href_js land) (page_url land)) = true ∨
  (∃ e, wait_for_tweets land = Raise e) ∨ (max_scrolls ≤ 0)%Z →
  let c := collect_bookmarks land env late site b max_scrolls no_art in
  returned c = [] ∧ c_browser c = b ∧ c_writes c = [].
Proof.
  intros Hcase. unfold collect_bookmarks.
  destruct (_is_login_page _) eqn:Hl; [done|].
  destruct (wait_for_tweets land) as [[]|e] eqn:Hw; [|done].
  destruct Hcase as [?|[[e ?]|Hmax]]; [done..|].
  replace (Z.to_nat max_scrolls) with O by lia. cbn [scroll_loop].
  cbn [final exit store bookmarks empty_cstate List.filter fetch_articles].
  by destruct (negb no_art && negb late).
Qed.

End nothing.

(** The session has expired. *)
Lemma nothing_to_collect_witness :
  let c := collect_bookmarks expired_landing
             (steady_feed [Rendered article_dom]) false (plain_site "")
             no_pages 100 false in
  returned c = [] ∧ c_browser c = no_pages ∧ c_writes c = [].
Proof.
  apply (nothing_to_collect expired_landing
           (steady_feed [Rendered article_dom]) false (plain_site "")
           no_pages 100 false).
  left. reflexivity.
Defined.

(** ** Python strings *)

Section py_strings.

Lemma rev_app_append (s t : string) :
  String.rev_app s t = String.rev s +:+ t.
Proof.
  unfold String.rev. revert t. induction s as [|a s IH]; intros t; [done|].
  cbn [String.rev_app]. rewrite (IH (String a t)), (IH (String a "")).
  by rewrite app_assoc_s.
Qed.

Lemma rev_String a (s : string) :
  String.rev (String a s) = String.rev s +:+ String a "".
Proof. unfold String.rev at 1. cbn [String.rev_app]. apply rev_app_append. Qed.

Lemma rev_append (s t : string) :
  String.rev (s +:+ t) = String.rev t +:+ String.rev s.
Proof.
  induction s as [|a s IH].
  - by rewrite app_empty_l, app_empty_r.
  - by rewrite app_String, !rev_String, IH, app_assoc_s.
Qed.

Lemma rev_involutive_s (s : string) : String.rev (String.rev s) = s.
Proof.
  induction s as [|a s IH]; [done|].
  by rewrite rev_String, rev_append, IH.
Qed.

Lemma all_chars_app p (s t : string) :
  all_chars p (s +:+ t) = all_chars p s && all_chars p t.
Proof.
  induction s as [|c s IH]; [done|].
  rewrite app_String. cbn [all_chars]. by rewrite IH, andb_assoc.
Qed.

Lemma all_chars_rev p (s : string) : all_chars p (String.rev s) = all_chars p s.
Proof.
  induction s as [|c s IH]; [done|].
  rewrite rev_String, all_chars_app, IH. cbn [all_chars].
  rewrite andb_true_r. apply andb_comm.
Qed.

Lemma startswith_append (p rest : string) :
  Py.startswith (p +:+ rest) p = true.
Proof.
  induction p as [|a p IH]; [done|].
  rewrite app_String. cbn [Py.startswith]. by rewrite Ascii.eqb_refl, IH.
Qed.

Lemma startswith_split (s p : string) :
  Py.startswith s p = true → s = p +:+ Py.drop (String.length p) s.
Proof.
  revert s. induction p as [|a p IH]; intros s; [by destruct s|].
  destruct s as [|b s]; [done|]. cbn [Py.startswith].
  intros [Hab Hp]%andb_true_iff. apply Ascii.eqb_eq in Hab as ->.
  rewrite app_String. cbn [String.length Py.drop]. f_equal. by apply IH.
Qed.

Lemma endswith_append (s suf : string) :
  Py.endswith (s +:+ suf) suf = true.
Proof. unfold Py.endswith. rewrite rev_append. apply startswith_append. Qed.

Lemma endswith_split (s suf : string) :
  Py.endswith s suf = true → ∃ d, s = d +:+ suf.
Proof.
  unfold Py.endswith. intros Hs. apply startswith_split in Hs.
  exists (String.rev (Py.drop (String.length (String.rev suf))
                        (String.rev s))).
  rewrite <-(rev_involutive_s s) at 1. rewrite Hs at 1.
  by rewrite rev_append, rev_involutive_s.
Qed.

(** A text that occurs somewhere in [s] is found by [in]. *)
Lemma contains_middle (d u e : string) : Py.contains u (d +:+ u +:+ e) = true.
Proof.
  induction d as [|c d IH].
  - rewrite app_empty_l. destruct (u +:+ e) eqn:E; cbn [Py.contains];
      rewrite <-E, startswith_append; done.
  - rewrite app_String. cbn [Py.contains]. rewrite IH. apply orb_true_r.
Qed.

Lemma contains_split (u s : string) :
  Py.contains u s = true → ∃ d e, s = d +:+ u +:+ e.
Proof.
  induction s as [|c s IH]; cbn [Py.contains].
  - rewrite orb_false_r. intros Hs. apply startswith_split in Hs.
    exists "", (Py.drop (String.length u) ""). by rewrite app_empty_l.
  - intros [Hs|Hs]%orb_true_iff.
    + apply startswith_split in Hs. exists "". eexists.
      rewrite app_empty_l. exact Hs.
    + destruct (IH Hs) as (d & e & ->). exists (String c d), e.
      by rewrite app_String.
Qed.

Lemma lstrip_by_suffix p (s : string) :
  ∃ d, s = d +:+ Py.lstrip_by p s ∧ all_chars p d = true.
Proof.
  induction s as [|c s (d & IH & Hd)]; [by exists ""|].
  cbn [Py.lstrip_by]. destruct (p c) eqn:Hc.
  - exists (String c d). rewrite app_String, <-IH. cbn [all_chars].
    by rewrite Hc, Hd.
  - by exists "".
Qed.

Lemma lstrip_by_head p (s : string) c r :
  Py.lstrip_by p s = String c r → p c = false.
Proof.
  induction s as [|c0 s IH]; [done|]. cbn [Py.lstrip_by].
  destruct (p c0) eqn:Hc; [done|]. by intros [= <- _].
Qed.

(** [strip] cuts a text out of the middle of [s] that neither starts nor
    ends with a character it strips. *)
Lemma strip_by_spec p (s : string) :
  (∃ d e, s = d +:+ Py.strip_by p s +:+ e ∧
          all_chars p d = true ∧ all_chars p e = true) ∧
  (∀ c r, Py.strip_by p s = String c r → p c = false) ∧
  (∀ c r, String.rev (Py.strip_by p s) = String c r → p c = false).
Proof.
  unfold Py.strip_by, Py.rstrip_by.
  destruct (lstrip_by_suffix p s) as (d & Hd & Hpd).
  set (m := Py.lstrip_by p s) in *.
  destruct (lstrip_by_suffix p (String.rev m)) as (e & He & Hpe).
  set (k := Py.lstrip_by p (String.rev m)) in *.
  assert (m = String.rev k +:+ String.rev e) as Hm.
  { rewrite <-(rev_involutive_s m), He. apply rev_append. }
  split_and!.
  - exists d, (String.rev e). rewrite <-Hm. split; [done|].
    by rewrite all_chars_rev.
  - intros c r Hk. rewrite Hk, app_String in Hm.
    by eapply lstrip_by_head.
  - intros c r. rewrite rev_involutive_s. apply lstrip_by_head.
Qed.

Lemma no_newline_rev (s : string) : no_newline (String.rev s) = no_newline s.
Proof.
  induction s as [|c s IH]; [done|].
  rewrite rev_String, no_newline_app, IH. cbn [no_newline].
  rewrite andb_true_r. apply andb_comm.
Qed.

Lemma no_newline_replace (s : string) :
  no_newline (Py.replace_char "010" " " s) = true.
Proof.
  induction s as [|c s IH]; [done|]. cbn [Py.replace_char no_newline].
  rewrite IH, andb_true_r. by destruct (Ascii.eqb c "010") eqn:E; [|rewrite E].
Qed.

Lemma no_newline_strip_by p (s : string) :
  no_newline s = true → no_newline (Py.strip_by p s) = true.
Proof.
  destruct (strip_by_spec p s) as [(d & e & Hs & _) _]. intros Hn.
  rewrite Hs, !no_newline_app in Hn.
  by apply andb_true_iff in Hn as [_ [? _]%andb_true_iff].
Qed.

End py_strings.

(** ** More on the tweet parser *)

Section parsed.
Context `{UrlLib}.

Lemma parse_tweet_fields d t :
  _parse_tweet (Rendered d) = Ok t →
  text t = Py.strip (Py.replace_char "010" " " (default "" (text_el d))) ∧
  author_handle t =
    (let handle := match handle_el d with
                   | Some href => Py.strip_chars "/" (attr_or_empty href)
                   | None => ""
                   end in
     if Py.truthy handle then "@" +:+ handle else "") ∧
  image_urls t = foldl image_step [] (photos d) ∧
  article_text t = "".
Proof.
  unfold _parse_tweet.
  destruct (scan_anchors _ _) as [[raw art]|e]; [|done].
  cbn [mbind result_bind mret result_ret]. by intros [= <-].
Qed.

Lemma parse_tweet_Rendered a t :
  _parse_tweet a = Ok t → ∃ d, a = Rendered d.
Proof. destruct a as [d|e]; [eauto|done]. Qed.

(** X10. [urls_raw] is in increasing lexicographic order and has no duplicate,
    whatever the tweet. *)
Theorem urls_raw_is_sorted a t :
  _parse_tweet a = Ok t →
  StronglySorted String.le (urls_raw t) ∧ NoDup (urls_raw t).
Proof.
  intros Hp. destruct (parse_tweet_Rendered a t Hp) as [d ->].
  destruct (parse_tweet_rendered d t Hp) as (Hs & Hn & _). done.
Qed.

(** X11. [author_handle] is empty or an at-sign followed by a non-empty handle
    that neither starts nor ends with a slash. *)
Theorem author_handle_format a t :
  _parse_tweet a = Ok t →
  author_handle t = "" ∨
  ∃ h, author_handle t = "@" +:+ h ∧ h ≠ "" ∧
       (∀ c r, h = String c r → c ≠ "/"%char) ∧
       (∀ c r, String.rev h = String c r → c ≠ "/"%char).
Proof.
  intros Hp. destruct (parse_tweet_Rendered a t Hp) as [d ->].
  destruct (parse_tweet_fields d t Hp) as (_ & -> & _). cbv zeta.
  destruct (handle_el d) as [href|]; [|by left].
  unfold Py.strip_chars.
  set (p := λ c, Py.contains (String c "") "/").
  destruct (strip_by_spec p (attr_or_empty href)) as (_ & Hhead & Hlast).
  destruct (Py.strip_by p (attr_or_empty href)) as [|c0 h0] eqn:E; [by left|].
  right. exists (String c0 h0). split_and!; [done|done| |].
  - intros c r [= <- <-] ->. by specialize (Hhead _ _ eq_refl).
  - intros c r Hr ->. by specialize (Hlast _ _ Hr).
Qed.

(** X12. The text of a record has no newline and no white space at either
    end. *)
Theorem parsed_text_is_normalised a t :
  _parse_tweet a = Ok t →
  no_newline (text t) = true ∧
  (∀ c r, text t = String c r → Py.isspace c = false) ∧
  (∀ c r, String.rev (text t) = String c r → Py.isspace c = false).
Proof.
  intros Hp. destruct (parse_tweet_Rendered a t Hp) as [d ->].
  destruct (parse_tweet_fields d t Hp) as (-> & _). unfold Py.strip.
  destruct (strip_by_spec Py.isspace
              (Py.replace_char "010" " " (default "" (text_el d))))
    as (_ & Hhead & Hlast).
  split_and!; [|done..].
  apply no_newline_strip_by, no_newline_replace.
Qed.

Lemma foldl_image_step (P : string → Prop) acc l :
  (∀ s, P (s +:+ "?name=orig")) → Forall P acc →
  Forall P (foldl image_step acc l) ∧
  (length (foldl image_step acc l) ≤ length acc + length l)%nat.
Proof.
  intros HP. revert acc. induction l as [|el l IH]; intros acc Hacc.
  - simpl. split; [done|lia].
  - cbn [foldl]. unfold image_step at 2 4.
    destruct (Py.truthy _ && _).
    + destruct (IH (acc ++ [Re.sub_name (attr_or_empty el) +:+ "?name=orig"]))
        as [H1 H2].
      { apply Forall_app. split; [done|]. constructor; [apply HP|done]. }
      split; [done|]. rewrite length_app in H2. simpl in *. lia.
    + destruct (IH acc Hacc) as [H1 H2]. split; [done|]. simpl. lia.
Qed.

(** X13. Every image URL of a record asks for the original size, and there is
    at most one per image element. *)
Theorem image_urls_ask_for_original d t :
  _parse_tweet (Rendered d) = Ok t →
  Forall (λ u, Py.endswith u "?name=orig" = true) (image_urls t) ∧
  (length (image_urls t) ≤ length (photos d))%nat.
Proof.
  intros Hp. destruct (parse_tweet_fields d t Hp) as (_ & _ & -> & _).
  destruct (foldl_image_step (λ u, Py.endswith u "?name=orig" = true)
              [] (photos d)) as [H1 H2]; [|done|done].
  intros s. apply endswith_append.
Qed.

Lemma span_spec p (s : string) :
  s = fst (Py.span p s) +:+ snd (Py.span p s) ∧
  all_chars p (fst (Py.span p s)) = true.
Proof.
  induction s as [|c s [IH1 IH2]]; [done|]. cbn [Py.span].
  destruct (p c) eqn:Hc; [|done].
  destruct (Py.span p s) as [x y]. simpl in *.
  rewrite Hc, IH2. split; [|done]. by rewrite app_String, <-IH1.
Qed.

(** A match of the URL pattern is a prefix of the text it is anchored at. *)
Lemma match_url_at_spec s u :
  Re.match_url_at s = Some u →
  (∃ rest, s = u +:+ rest) ∧
  (Py.startswith u "http://" = true ∨ Py.startswith u "https://" = true) ∧
  all_chars Re.url_char u = true.
Proof.
  unfold Re.match_url_at.
  destruct (Py.startswith s "http") eqn:H1; [|done].
  apply startswith_split in H1. cbn [String.length] in H1.
  set (r := Py.drop 4 s) in *.
  destruct (Py.startswith r "s") eqn:H2.
  - apply startswith_split in H2. cbn [String.length] in H2.
    set (r1 := Py.drop 1 r) in *.
    destruct (Py.startswith r1 "://") eqn:H3; [|done].
    apply startswith_split in H3. cbn [String.length] in H3.
    set (r2 := Py.drop 3 r1) in *.
    destruct (span_spec Re.url_char r2) as [Hsp Hall].
    destruct (Py.truthy _); [|done]. intros [= <-].
    split_and!.
    + exists (snd (Py.span Re.url_char r2)).
      rewrite H1, H2, H3. rewrite Hsp at 1. reflexivity.
    + by right.
    + rewrite !all_chars_app, Hall. reflexivity.
  - destruct (Py.startswith r "://") eqn:H3; [|done].
    apply startswith_split in H3. cbn [String.length] in H3.
    set (r2 := Py.drop 3 r) in *.
    destruct (span_spec Re.url_char r2) as [Hsp Hall].
    destruct (Py.truthy _); [|done]. intros [= <-].
    split_and!.
    + exists (snd (Py.span Re.url_char r2)).
      rewrite H1, H3. rewrite Hsp at 1. reflexivity.
    + by left.
    + rewrite !all_chars_app, Hall. reflexivity.
Qed.

Lemma findall_urls_go_spec s skip u :
  u ∈ Re.findall_urls_go skip s →
  ∃ d rest, s = d +:+ u +:+ rest ∧ Re.match_url_at (u +:+ rest) = Some u.
Proof.
  revert skip. induction s as [|c s IH]; intros skip; cbn [Re.findall_urls_go].
  - intros Hu. by apply elem_of_nil in Hu.
  - assert (∀ k, u ∈ Re.findall_urls_go k s →
            ∃ d rest, String c s = d +:+ u +:+ rest ∧
                      Re.match_url_at (u +:+ rest) = Some u) as Hrec.
    { intros k Hk. destruct (IH k Hk) as (d & rest & -> & Hm).
      exists (String c d), rest. by rewrite app_String. }
    destruct skip as [|k]; [|apply Hrec].
    destruct (Re.match_url_at (String c s)) as [u0|] eqn:Hm; [|apply Hrec].
    intros [->|Hu]%elem_of_cons; [|by eapply Hrec].
    destruct (match_url_at_spec _ _ Hm) as [[rest Hs] _].
    exists "", rest. rewrite app_empty_l, <-Hs. done.
Qed.

(** X14. What the URL pattern finds in a text: each match starts with the
    scheme, occurs in the text, and has no white space, quote, angle
    bracket or closing parenthesis in it. *)
Theorem found_urls_are_in_the_text s u :
  u ∈ Re.findall_urls s →
  (Py.startswith u "http://" = true ∨ Py.startswith u "https://" = true) ∧
  Py.contains u s = true ∧
  all_chars Re.url_char u = true.
Proof.
  intros Hu. apply findall_urls_go_spec in Hu as (d & rest & -> & Hm).
  destruct (match_url_at_spec _ _ Hm) as (_ & Hsch & Hall).
  split_and!; [done|apply contains_middle|done].
Qed.

Lemma first_article_spec els :
  first_article els ≠ "" →
  is_article_url (first_article els) = Ok true ∧
  ∃ el, el ∈ els ∧ first_article els = attr_or_empty el.
Proof.
  induction els as [|el els IH]; [done|]. cbn [first_article].
  assert (first_article els ≠ "" →
          is_article_url (first_article els) = Ok true ∧
          ∃ el0, el0 ∈ el :: els ∧ first_article els = attr_or_empty el0)
    as IH'.
  { intros Hne. destruct (IH Hne) as [Ha (el0 & Hel & Heq)].
    split; [done|]. exists el0. split; [by apply list_elem_of_further|done]. }
  destruct (is_article_url (attr_or_empty el)) as [[|]|] eqn:Ha;
    [|exact IH'..].
  destruct (Py.truthy (attr_or_empty el)); [|exact IH'].
  intros _. split; [done|]. exists el. split; [apply list_elem_of_here|done].
Qed.

(** X15. When the text of the tweet spells out no URL, [urls_raw] holds only
    links of the anchors: none of them is an article link, each contains
    [t.co] or has a host other than [x.com] and [twitter.com], and none is
    the [article_url] of the record. *)
Theorem urls_raw_without_text_urls d t u :
  _parse_tweet (Rendered d) = Ok t →
  Re.findall_urls (default "" (text_el d)) = [] →
  u ∈ urls_raw t →
  (∃ el, el ∈ anchors d ∧ u = attr_or_empty el) ∧
  tracked_anchor u ∧
  (article_url t ≠ "" → u ≠ article_url t).
Proof.
  intros Hp Hno Hu.
  destruct (parse_tweet_rendered d t Hp) as (_ & _ & Hart & Hraw).
  apply Hraw in Hu. rewrite Hno in Hu.
  destruct Hu as [Hu|(el & Hel & -> & Ht)]; [by apply elem_of_nil in Hu|].
  split_and!; [eauto|done|].
  intros Hne Heq. rewrite Hart in Hne.
  destruct (first_article_spec _ Hne) as [Ha _].
  destruct Ht as [Hf _]. rewrite Heq, Hart in Hf. congruence.
Qed.

End parsed.

Lemma urls_raw_is_sorted_witness :
  StronglySorted String.le (urls_raw article_tweet) ∧
  NoDup (urls_raw article_tweet).
Proof.
  apply (urls_raw_is_sorted (Rendered article_dom) article_tweet).
  reflexivity.
Defined.

Lemma author_handle_format_witness :
  author_handle article_tweet = "" ∨
  ∃ h, author_handle article_tweet = "@" +:+ h ∧ h ≠ "" ∧
       (∀ c r, h = String c r → c ≠ "/"%char) ∧
       (∀ c r, String.rev h = String c r → c ≠ "/"%char).
Proof.
  apply (author_handle_format (Rendered article_dom) article_tweet).
  reflexivity.
Defined.

(** Bob's text comes with a newline inside and white space around it. *)
Lemma parsed_text_is_normalised_witness :
  match _parse_tweet (Rendered photo_dom) with
  | Ok t =>
      text t = "Two lines of text" ∧
      no_newline (text t) = true ∧
      (∀ c r, text t = String c r → Py.isspace c = false) ∧
      (∀ c r, String.rev (text t) = String c r → Py.isspace c = false)
  | Raise _ => False
  end.
Proof.
  destruct (_parse_tweet (Rendered photo_dom)) as [t|e] eqn:Hp;
    [|vm_compute in Hp; discriminate Hp].
  split; [vm_compute in Hp; injection Hp as <-; reflexivity|].
  apply (parsed_text_is_normalised (Rendered photo_dom) t Hp).
Defined.

(** Of Bob's three image elements only the photo gives an image URL. *)
Lemma image_urls_ask_for_original_witness :
  match _parse_tweet (Rendered photo_dom) with
  | Ok t =>
      image_urls t = ["https://pbs.twimg.com/media/abc?format=jpg?name=orig"] ∧
      Forall (λ u, Py.endswith u "?name=orig" = true) (image_urls t) ∧
      (length (image_urls t) ≤ length (photos photo_dom))%nat
  | Raise _ => False
  end.
Proof.
  destruct (_parse_tweet (Rendered photo_dom)) as [t|e] eqn:Hp;
    [|vm_compute in Hp; discriminate Hp].
  split; [vm_compute in Hp; injection Hp as <-; reflexivity|].
  apply (image_urls_ask_for_original photo_dom t Hp).
Defined.

Lemma found_urls_are_in_the_text_witness :
  (Py.startswith "https://t.co/abc" "http://" = true ∨
   Py.startswith "https://t.co/abc" "https://" = true) ∧
  Py.contains "https://t.co/abc" "see (https://t.co/abc) now" = true ∧
  all_chars Re.url_char "https://t.co/abc" = true.
Proof.
  apply (found_urls_are_in_the_text "see (https://t.co/abc) now"
           "https://t.co/abc").
  apply (bool_decide_unpack _). vm_compute. exact I.
Defined.

Lemma urls_raw_without_text_urls_witness :
  (∃ el, el ∈ anchors article_dom ∧ "https://t.co/abc" = attr_or_empty el) ∧
  tracked_anchor "https://t.co/abc" ∧
  (article_url article_tweet ≠ "" →
   "https://t.co/abc" ≠ article_url article_tweet).
Proof.
  apply (urls_raw_without_text_urls article_dom article_tweet
           "https://t.co/abc").
  - reflexivity.
  - reflexivity.
  - apply list_elem_of_here.
Defined.

(** ** More on link resolution and the rows *)

Section mapping.
Variable head : string → result string.

(** What a URL resolves to: the final URL of the response, or the URL
    itself when the request raises. *)
Lemma expand_tco_url_value u :
  expand_tco_url head u =
    Ok (match head u with Ok r => r | Raise _ => u end).
Proof. unfold expand_tco_url. by destruct (head u). Qed.

Lemma expand_urls_parallel_lookup order urls :
  (∀ l, order l ≡ₚ l) →
  ∃ m, expand_urls_parallel head order urls = Ok m ∧
       ∀ u, m !! u =
              if bool_decide (u ∈ urls ∧ Py.contains "t.co/" u = true)
              then Some (match head u with Ok r => r | Raise _ => u end)
              else None.
Proof.
  intros Hperm. unfold expand_urls_parallel.
  set (tco_urls := filter (λ u, Py.contains "t.co/" u = true) urls).
  destruct (collect_results head (order tco_urls) ∅) as (m & Hm & Hin & Hout).
  assert (∀ u, u ∈ order tco_urls ↔
               u ∈ urls ∧ Py.contains "t.co/" u = true) as Hmem.
  { intros u. rewrite (Hperm tco_urls). unfold tco_urls.
    rewrite list_elem_of_filter. tauto. }
  assert (∀ u, m !! u =
                 if bool_decide (u ∈ urls ∧ Py.contains "t.co/" u = true)
                 then Some (match head u with Ok r => r | Raise _ => u end)
                 else None) as Hlook.
  { intros u. case_bool_decide as Hu.
    - destruct (Hin u) as (r & Hr & ->); [by apply Hmem|].
      rewrite expand_tco_url_value in Hr. congruence.
    - rewrite Hout; [done|]. by rewrite Hmem. }
  destruct tco_urls as [|u1 tco'] eqn:E; [|by exists m].
  exists ∅. split; [done|]. intros u. rewrite lookup_empty.
  case_bool_decide as Hu; [|done].
  apply Hmem in Hu. rewrite (Hperm []) in Hu. by apply elem_of_nil in Hu.
Qed.

(** X16. The mapping of a batch: exactly the URLs of the input that contain
    [t.co/], each bound to what it resolves to; the batch never fails. *)
Theorem expand_urls_parallel_mapping order urls :
  (∀ l, order l ≡ₚ l) →
  ∃ m, expand_urls_parallel head order urls = Ok m ∧
       ∀ u, m !! u =
              if bool_decide (u ∈ urls ∧ Py.contains "t.co/" u = true)
              then Some (match head u with Ok r => r | Raise _ => u end)
              else None.
Proof. apply expand_urls_parallel_lookup. Qed.

Lemma expand_urls_parallel_orders order1 order2 urls :
  (∀ l, order1 l ≡ₚ l) → (∀ l, order2 l ≡ₚ l) →
  expand_urls_parallel head order1 urls = expand_urls_parallel head order2 urls.
Proof.
  intros H1 H2.
  destruct (expand_urls_parallel_lookup order1 urls H1) as (m1 & -> & Hm1).
  destruct (expand_urls_parallel_lookup order2 urls H2) as (m2 & -> & Hm2).
  f_equal. apply map_eq. intros u. by rewrite Hm1, Hm2.
Qed.

(** X17. For URLs none of which is repeated, so that each is requested
    once, the order in which the lookups complete does not matter for the
    mapping.  [_build_rows] passes such a list, a set turned into a list,
    and the rows it builds do not depend on that order either. *)
Theorem expand_urls_parallel_any_order order1 order2 :
  (∀ l, order1 l ≡ₚ l) → (∀ l, order2 l ≡ₚ l) →
  (∀ urls, NoDup urls →
           expand_urls_parallel head order1 urls
           = expand_urls_parallel head order2 urls) ∧
  (∀ bookmarks,
     NoDup (all_tco bookmarks) ∧
     _build_rows head order1 bookmarks = _build_rows head order2 bookmarks).
Proof.
  intros H1 H2. split.
  - intros urls _. by apply expand_urls_parallel_orders.
  - intros bookmarks. split; [unfold all_tco; apply NoDup_elements|].
    unfold _build_rows.
    by rewrite (expand_urls_parallel_orders order1 order2).
Qed.

(** X18. [urls_expanded] follows [urls_raw] position by position: a URL with
    [t.co/] in it is replaced by what it resolves to, any other URL is
    kept. *)
Theorem urls_expanded_is_positional order bookmarks :
  (∀ l, order l ≡ₚ l) →
  ∃ url_map,
    _build_rows head order bookmarks =
      Ok (csv_row_of url_map <$> bookmarks,
          jsonl_row_of url_map <$> bookmarks) ∧
    ∀ b, b ∈ bookmarks →
      length (expanded_of url_map b) = length (urls_raw b) ∧
      ∀ i u, urls_raw b !! i = Some u →
        expanded_of url_map b !! i =
          Some (if Py.contains "t.co/" u
                then match head u with Ok r => r | Raise _ => u end
                else u).
Proof.
  intros Hperm.
  destruct (expand_urls_parallel_lookup order (all_tco bookmarks) Hperm)
    as (m & Hm & Hlook).
  exists m. split; [unfold _build_rows; by rewrite Hm|].
  intros b Hb. unfold expanded_of. split; [by rewrite length_fmap|].
  intros i u Hi. rewrite list_lookup_fmap, Hi. simpl. f_equal.
  rewrite Hlook. case_bool_decide as Hu.
  - destruct Hu as [_ ->]. done.
  - destruct (Py.contains "t.co/" u) eqn:Ht; [|done].
    exfalso. apply Hu. split; [|done].
    eapply elem_of_all_tco; [exact Hb| |done].
    by eapply list_elem_of_lookup_2.
Qed.

End mapping.

(** Two URLs, of which one is shortened, resolved in either order. *)
Lemma expand_urls_parallel_mapping_witness :
  ∃ m, expand_urls_parallel (λ u, Ok (u +:+ "/final")) reverse
         ["https://t.co/a"; "https://example.org"; "https://t.co/b"] = Ok m ∧
       ∀ u, m !! u =
              if bool_decide
                   (u ∈ ["https://t.co/a"; "https://example.org";
                         "https://t.co/b"] ∧ Py.contains "t.co/" u = true)
              then Some (u +:+ "/final") else None.
Proof.
  apply (expand_urls_parallel_mapping (λ u, Ok (u +:+ "/final")) reverse).
  intros l. apply reverse_Permutation.
Defined.

(** Two lookups that complete in the order of submission, or in the
    reverse order. *)
Lemma expand_urls_parallel_any_order_witness :
  expand_urls_parallel (λ u, Ok (u +:+ "/final")) id
    ["https://t.co/a"; "https://t.co/b"]
  = expand_urls_parallel (λ u, Ok (u +:+ "/final")) reverse
      ["https://t.co/a"; "https://t.co/b"] ∧
  _build_rows (λ u, Ok (u +:+ "/final")) id [article_tweet]
  = _build_rows (λ u, Ok (u +:+ "/final")) reverse [article_tweet].
Proof.
  destruct (expand_urls_parallel_any_order (λ u, Ok (u +:+ "/final"))
              id reverse) as [Hmap Hrows].
  - intros l. reflexivity.
  - intros l. apply reverse_Permutation.
  - split.
    + apply Hmap. apply (bool_decide_unpack _). vm_compute. exact I.
    + apply Hrows.
Defined.

Lemma urls_expanded_is_positional_witness :
  ∃ url_map,
    _build_rows (λ u, Ok (u +:+ "/final")) id [article_tweet] =
      Ok (csv_row_of url_map <$> [article_tweet],
          jsonl_row_of url_map <$> [article_tweet]) ∧
    ∀ b, b ∈ [article_tweet] →
      length (expanded_of url_map b) = length (urls_raw b) ∧
      ∀ i u, urls_raw b !! i = Some u →
        expanded_of url_map b !! i =
          Some (if Py.contains "t.co/" u then u +:+ "/final" else u).
Proof.
  apply (urls_expanded_is_positional (λ u, Ok (u +:+ "/final")) id).
  intros l. reflexivity.
Defined.

(** X19. The keys of a row are the columns of the CSV header, each once. *)
Theorem rows_have_the_csv_columns url_map b :
  fst <$> csv_row_of url_map b ≡ₚ CSV_FIELDS ∧
  fst <$> jsonl_row_of url_map b ≡ₚ CSV_FIELDS ∧
  NoDup CSV_FIELDS.
Proof.
  assert (["timestamp"; "author_name"; "author_handle"; "text"; "tweet_url";
           "article_url"; "article_text"; "image_urls"; "urls_expanded"]
          ≡ₚ CSV_FIELDS) as Hp.
  { unfold CSV_FIELDS. do 5 apply Permutation_skip. symmetry.
    apply (Permutation_cons_app ["article_url"; "article_text"]
             ["urls_expanded"]). reflexivity. }
  split_and!; [exact Hp|exact Hp|].
  apply (bool_decide_unpack _). vm_compute. exact I.
Qed.

(** ** More on the output stage *)

Section output.
Context `{FileSys}.

Lemma csv_path_ne_jsonl stem : stem +:+ ".csv" ≠ stem +:+ ".jsonl".
Proof. intros Heq. by apply (inj (String.app stem)) in Heq. Qed.

Lemma lines_jsonl_text (rows : list row) :
  Forall (Forall (λ kv, flat (snd kv))) rows →
  lines (jsonl_text rows) =
    (λ r, Json.dumps (JObject r) +:+ newline) <$> rows.
Proof.
  induction 1 as [|kvs rows Hfl _ IH]; [done|].
  cbn [jsonl_text foldr]. fold (jsonl_text rows).
  rewrite lines_app_newline by by apply no_newline_dumps_row.
  by rewrite IH.
Qed.

Lemma write_file_writable path content (fs : gmap string file) :
  writable path → write_file path content fs = (Ok (), <[path := content]> fs).
Proof. intros [Ho Hw]. unfold write_file. by rewrite Ho, Hw. Qed.

(** Writing a file changes no other file, whether it raises or not. *)
Lemma write_file_frame path content (fs : gmap string file) p :
  p ≠ path → (write_file path content fs).2 !! p = fs !! p.
Proof.
  intros Hp. unfold write_file. destruct (open_w path); [|done].
  destruct (write_r path content); simpl; by rewrite lookup_insert_ne.
Qed.

(** An exception out of a write is the one [open] or a write raised. *)
Lemma write_file_Raise path content (fs : gmap string file) e :
  (write_file path content fs).1 = Raise e →
  open_w path = Raise e ∨ write_r path content = Raise e.
Proof.
  unfold write_file. destruct (open_w path); [|simpl; intros [= ->]; by left].
  destruct (write_r path content); simpl; [done|]. intros [= ->]. by right.
Qed.

Lemma length_lines_jsonl_rows url_map (bookmarks : list tweet) :
  length (lines (jsonl_text (jsonl_row_of url_map <$> bookmarks)))
  = length bookmarks.
Proof.
  rewrite lines_jsonl_text, !length_fmap; [done|].
  apply Forall_fmap, Forall_forall. intros b _. apply jsonl_row_flat.
Qed.

(** X20. When the files it is asked for can be written, [save_output]
    returns normally whatever the lookups do; it has written the file of
    each format asked for, with one row or line per record, and has
    touched no other file. *)
Theorem save_output_writes_its_files head order (fs : gmap string file)
    bookmarks stem fmt :
  (∀ l, order l ≡ₚ l) →
  (fmt_in fmt "csv" "both" = true → writable (stem +:+ ".csv")) →
  (fmt_in fmt "jsonl" "both" = true → writable (stem +:+ ".jsonl")) →
  ∃ fs',
    save_output head order fs bookmarks stem fmt = (Ok (), fs') ∧
    (∀ p, p ≠ stem +:+ ".csv" → p ≠ stem +:+ ".jsonl" →
          fs' !! p = fs !! p) ∧
    (if fmt_in fmt "csv" "both"
     then ∃ rows, fs' !! (stem +:+ ".csv") = Some (CsvFile CSV_FIELDS rows) ∧
                  length rows = length bookmarks
     else fs' !! (stem +:+ ".csv") = fs !! (stem +:+ ".csv")) ∧
    (if fmt_in fmt "jsonl" "both"
     then ∃ content, fs' !! (stem +:+ ".jsonl") = Some (TextFile content) ∧
                     length (lines content) = length bookmarks
     else fs' !! (stem +:+ ".jsonl") = fs !! (stem +:+ ".jsonl")).
Proof.
  intros Hperm Hcsv Hjsonl.
  destruct (expand_urls_parallel_lookup head order (all_tco bookmarks) Hperm)
    as (m & Hm & _).
  unfold save_output, _build_rows. rewrite Hm.
  cbn [mbind result_bind mret result_ret].
  pose proof (csv_path_ne_jsonl stem) as Hne.
  destruct (fmt_in fmt "csv" "both"), (fmt_in fmt "jsonl" "both");
    rewrite ?(write_file_writable (stem +:+ ".csv")) by auto;
    cbv zeta iota;
    rewrite ?(write_file_writable (stem +:+ ".jsonl")) by auto;
    (eexists; split; [reflexivity|]); split_and!.
  - intros p H1 H2. by rewrite !lookup_insert_ne by congruence.
  - eexists. rewrite lookup_insert_ne by congruence. rewrite lookup_insert_eq.
    split; [done|]. by rewrite length_fmap.
  - eexists. rewrite lookup_insert_eq. split; [done|].
    apply length_lines_jsonl_rows.
  - intros p H1 H2. by rewrite !lookup_insert_ne by congruence.
  - eexists. rewrite lookup_insert_eq.
    split; [done|]. by rewrite length_fmap.
  - by rewrite lookup_insert_ne by congruence.
  - intros p H1 H2. by rewrite !lookup_insert_ne by congruence.
  - by rewrite lookup_insert_ne by congruence.
  - eexists. rewrite lookup_insert_eq. split; [done|].
    apply length_lines_jsonl_rows.
  - done.
  - done.
  - done.
Qed.

(** X30. Whether [save_output] returns or raises, it touches no file but
    those of the formats asked for.  What it raises is what opening or
    writing one of them raised, never a failed lookup; and when the CSV
    file cannot be opened, the disk is left as it was: the JSONL file is
    not written either. *)
Theorem save_output_raises_from_its_files head order
    (fs : gmap string file) bookmarks stem fmt :
  (∀ l, order l ≡ₚ l) →
  ∃ saved fs',
    save_output head order fs bookmarks stem fmt = (saved, fs') ∧
    (∀ p, p ≠ stem +:+ ".csv" → p ≠ stem +:+ ".jsonl" →
          fs' !! p = fs !! p) ∧
    (fmt_in fmt "csv" "both" = false →
     fs' !! (stem +:+ ".csv") = fs !! (stem +:+ ".csv")) ∧
    (fmt_in fmt "jsonl" "both" = false →
     fs' !! (stem +:+ ".jsonl") = fs !! (stem +:+ ".jsonl")) ∧
    (∀ e, saved = Raise e →
       ∃ ext, (ext = "csv" ∨ ext = "jsonl") ∧
              fmt_in fmt ext "both" = true ∧
              (open_w (stem +:+ "." +:+ ext) = Raise e ∨
               ∃ content, write_r (stem +:+ "." +:+ ext) content = Raise e)) ∧
    (∀ e, fmt_in fmt "csv" "both" = true →
          open_w (stem +:+ ".csv") = Raise e →
          saved = Raise e ∧ fs' = fs).
Proof.
  intros Hperm.
  destruct (expand_urls_parallel_lookup head order (all_tco bookmarks) Hperm)
    as (m & Hm & _).
  unfold save_output, _build_rows. rewrite Hm.
  cbn [mbind result_bind mret result_ret].
  pose proof (csv_path_ne_jsonl stem) as Hne.
  set (csv := CsvFile CSV_FIELDS (csv_row_of m <$> bookmarks)).
  set (jsonl := TextFile (jsonl_text (jsonl_row_of m <$> bookmarks))).
  pose proof (write_file_frame (stem +:+ ".csv") csv fs) as Hfc.
  pose proof (write_file_Raise (stem +:+ ".csv") csv fs) as Hrc.
  destruct (fmt_in fmt "csv" "both") eqn:Ec.
  - destruct (write_file (stem +:+ ".csv") csv fs) as [[[]|e1] fs1] eqn:Hw1;
      simpl in Hfc, Hrc.
    + pose proof (write_file_frame (stem +:+ ".jsonl") jsonl fs1) as Hfj.
      pose proof (write_file_Raise (stem +:+ ".jsonl") jsonl fs1) as Hrj.
      destruct (fmt_in fmt "jsonl" "both") eqn:Ej.
      * destruct (write_file (stem +:+ ".jsonl") jsonl fs1) as [saved fs2];
          simpl in Hfj, Hrj.
        exists saved, fs2. split_and!; [done| |done|done| |].
        -- intros p H1 H2. by rewrite Hfj, Hfc.
        -- intros e ->. exists "jsonl". split_and!; [by right|done|].
           destruct (Hrj e eq_refl); [by left|right; by exists jsonl].
        -- intros e _ He. unfold write_file in Hw1. by rewrite He in Hw1.
      * exists (Ok ()), fs1. split_and!; [done| |done| |done|].
        -- intros p H1 H2. by apply Hfc.
        -- intros _. apply Hfc. congruence.
        -- intros e _ He. unfold write_file in Hw1. by rewrite He in Hw1.
    + exists (Raise e1), fs1. split_and!; [done| |done| | |].
      * intros p H1 H2. by apply Hfc.
      * intros _. apply Hfc. congruence.
      * intros e [= <-]. exists "csv". split_and!; [by left|done|].
        destruct (Hrc e1 eq_refl); [by left|right; by exists csv].
      * intros e _ He. unfold write_file in Hw1. rewrite He in Hw1.
        by injection Hw1 as <- <-.
  - cbv zeta iota.
    pose proof (write_file_frame (stem +:+ ".jsonl") jsonl fs) as Hfj.
    pose proof (write_file_Raise (stem +:+ ".jsonl") jsonl fs) as Hrj.
    destruct (fmt_in fmt "jsonl" "both") eqn:Ej.
    + destruct (write_file (stem +:+ ".jsonl") jsonl fs) as [saved fs2];
        simpl in Hfj, Hrj.
      exists saved, fs2. split_and!; [done| | |done| |done].
      * intros p H1 H2. by apply Hfj.
      * intros _. by apply Hfj.
      * intros e ->. exists "jsonl". split_and!; [by right|done|].
        destruct (Hrj e eq_refl); [by left|right; by exists jsonl].
    + exists (Ok ()), fs. by split_and!.
Qed.

Lemma take_length_append (s t : string) :
  Py.take (String.length s) (s +:+ t) = s.
Proof.
  induction s as [|c s IH]; [by destruct t|].
  rewrite app_String. cbn [String.length Py.take]. by rewrite IH.
Qed.

Lemma removesuffix_append (s suf : string) : removesuffix (s +:+ suf) suf = s.
Proof.
  unfold removesuffix. destruct suf as [|c suf]; [apply app_empty_r|].
  cbn [Py.truthy andb]. rewrite endswith_append, length_app_s.
  replace (String.length s + String.length (String c suf)
           - String.length (String c suf))%nat with (String.length s) by lia.
  apply take_length_append.
Qed.

Lemma removesuffix_other (s suf : string) :
  Py.endswith s suf = false → removesuffix s suf = s.
Proof. unfold removesuffix. intros ->. by rewrite andb_false_r. Qed.

(** X21. The stem of the output files: a name given with the extension [.csv]
    or [.jsonl], or with neither, leads to the same stem. *)
Theorem output_stem_ignores_extension name :
  Py.endswith name ".csv" = false → Py.endswith name ".jsonl" = false →
  removesuffix (removesuffix (name +:+ ".csv") ".csv") ".jsonl" = name ∧
  removesuffix (removesuffix (name +:+ ".jsonl") ".csv") ".jsonl" = name ∧
  removesuffix (removesuffix name ".csv") ".jsonl" = name.
Proof.
  intros Hc Hj. split_and!.
  - by rewrite removesuffix_append, removesuffix_other.
  - rewrite (removesuffix_other (name +:+ ".jsonl")).
    + apply removesuffix_append.
    + unfold Py.endswith. rewrite rev_append. reflexivity.
  - rewrite (removesuffix_other name ".csv") by done.
    by apply removesuffix_other.
Qed.

End output.

Lemma save_output_writes_its_files_witness :
  ∃ fs',
    save_output (λ u, Raise RequestException) id earlier_files
      [blank_tweet; article_tweet] "bookmarks" "jsonl" = (Ok (), fs') ∧
    (∀ p, p ≠ "bookmarks" +:+ ".csv" → p ≠ "bookmarks" +:+ ".jsonl" →
          fs' !! p = earlier_files !! p) ∧
    fs' !! ("bookmarks" +:+ ".csv")
      = earlier_files !! ("bookmarks" +:+ ".csv") ∧
    (∃ content, fs' !! ("bookmarks" +:+ ".jsonl") = Some (TextFile content) ∧
                length (lines content) = 2%nat).
Proof.
  apply (save_output_writes_its_files (λ u, Raise RequestException) id
           earlier_files [blank_tweet; article_tweet] "bookmarks" "jsonl").
  - intros l. reflexivity.
  - intros _. split; [reflexivity|intros content; reflexivity].
  - intros _. split; [reflexivity|intros content; reflexivity].
Defined.

(** The directory [out] is missing: asked for both formats, [save_output]
    raises the [OSError] of the first [open] and leaves the disk alone. *)
Lemma save_output_raises_from_its_files_witness :
  ∃ saved fs',
    @save_output no_out_dir (λ u, Ok u) id earlier_files
      [blank_tweet; article_tweet] "out/bookmarks" "both" = (saved, fs') ∧
    saved = Raise OSError ∧ fs' = earlier_files.
Proof.
  destruct (@save_output_raises_from_its_files no_out_dir (λ u, Ok u) id
              earlier_files [blank_tweet; article_tweet] "out/bookmarks"
              "both" (λ l, reflexivity _))
    as (saved & fs' & Hs & _ & _ & _ & _ & Hopen).
  exists saved, fs'. split; [exact Hs|].
  apply (Hopen OSError); reflexivity.
Defined.

Lemma output_stem_ignores_extension_witness :
  removesuffix (removesuffix "bookmarks.csv" ".csv") ".jsonl" = "bookmarks" ∧
  removesuffix (removesuffix "bookmarks.jsonl" ".csv") ".jsonl"
    = "bookmarks" ∧
  removesuffix (removesuffix "bookmarks" ".csv") ".jsonl" = "bookmarks".
Proof.
  apply (output_stem_ignores_extension "bookmarks"); reflexivity.
Defined.

(** ** Login *)

Section login.

(** X22. A URL is taken for a login page exactly when one of the three slugs
    occurs in it. *)
Theorem is_login_page_iff url :
  _is_login_page url = true ↔
  ∃ slug d e, slug ∈ LOGIN_SLUGS ∧ url = d +:+ slug +:+ e.
Proof.
  unfold _is_login_page. rewrite existsb_exists. split.
  - intros (slug & Hin & Hc). apply contains_split in Hc as (d & e & ->).
    exists slug, d, e. split; [by apply list_elem_of_In|done].
  - intros (slug & d & e & Hin & ->). exists slug.
    split; [by apply list_elem_of_In|apply contains_middle].
Qed.

Lemma login_loop_waiting poll rest :
  still_waiting poll → login_loop (poll :: rest) = login_loop rest.
Proof.
  destruct poll as [stop pages]. intros (Hs & Hp & Hl). simpl in *.
  subst stop. destruct pages as [|r pages]; [done|].
  set (urls := omap _ (r :: pages)).
  assert (existsb (λ u, negb (_is_login_page u)) urls = false) as ->;
    [|done].
  apply not_true_is_false. intros (u & Hu & Hn)%existsb_exists.
  apply list_elem_of_In in Hu. unfold urls in Hu.
  apply list_elem_of_omap in Hu as (ru & Hru & Hok).
  destruct ru as [u'|]; [|done]. injection Hok as ->.
  rewrite (Hl u Hru) in Hn. done.
Qed.

(** X23. While the user is still on the login pages the loop goes on polling,
    and pages whose location cannot be read are ignored; the first poll
    that shows a page elsewhere ends it with the login detected. *)
Theorem login_detected_at_first_page_elsewhere waiting pages u rest :
  Forall still_waiting waiting →
  Ok u ∈ pages → _is_login_page u = false →
  login_loop (waiting ++ (false, pages) :: rest) = Some LoginDetected.
Proof.
  intros Hw Hu Hn. induction Hw as [|poll waiting Hp _ IH].
  - cbn [app login_loop]. destruct pages as [|r pages];
      [by apply elem_of_nil in Hu|].
    set (urls := omap _ (r :: pages)).
    assert (existsb (λ u, negb (_is_login_page u)) urls = true) as ->;
      [|done].
    apply existsb_exists. exists u. split; [|by rewrite Hn].
    apply list_elem_of_In. unfold urls.
    apply list_elem_of_omap. by exists (Ok u).
  - rewrite <-app_comm_cons, login_loop_waiting by done. exact IH.
Qed.

(** X24. [interactive_login] answers [True] exactly when the login was detected
    and the session could be saved, and then the session file exists; it
    changes no file but the session file. *)
Theorem login_succeeds_iff_session_saved env af (fs : gmap string file)
    ok fs' :
  interactive_login env af fs = Some (ok, fs') →
  (ok = true ↔
     login_loop (polls env) = Some LoginDetected ∧
     storage_state_r env = Ok ()) ∧
  (ok = true → fs' !! af = Some SessionFile) ∧
  (fs' !! af = fs !! af ∨ fs' !! af = Some SessionFile) ∧
  (∀ p, p ≠ af → fs' !! p = fs !! p).
Proof.
  intros Hl. split_and!; [| | |by eapply interactive_login_frame].
  - revert Hl. unfold interactive_login.
    destruct (login_loop (polls env)) as [[| |]|]; [| | |done]; simpl.
    + intros [= <- _]. split; [done|]. by intros [[=] _].
    + intros [= <- _]. split; [done|]. by intros [[=] _].
    + destruct (storage_state_r env) as [[]|e]; simpl.
      * intros [= <- _]. done.
      * intros [= <- _]. split; [done|]. by intros [_ [=]].
  - revert Hl. unfold interactive_login.
    destruct (login_loop (polls env)) as [[| |]|]; [| | |done]; simpl.
    + by intros [= <- _].
    + by intros [= <- _].
    + destruct (storage_state_r env) as [[]|e]; simpl.
      * intros [= _ <-] _. apply lookup_insert_eq.
      * by intros [= <- _].
  - revert Hl. unfold interactive_login.
    destruct (login_loop (polls env)) as [out|]; [|done]. simpl.
    destruct out, (storage_state_r env), (late_stop env),
      (storage_state_partial_r env); simpl; intros [= _ <-];
      rewrite ?lookup_insert_eq; auto.
Qed.

(** X25. Ctrl+C while the user is still on the login pages: the loop stops at
    the next test of the flag, the answer is [False], and what there is of a
    session is saved when that is possible. *)
Theorem login_interrupted env af (fs : gmap string file) waiting pages rest :
  polls env = waiting ++ (true, pages) :: rest →
  Forall still_waiting waiting →
  interactive_login env af fs =
    Some (false, match storage_state_partial_r env with
                 | Ok _ => <[af := SessionFile]> fs
                 | Raise _ => fs
                 end).
Proof.
  intros Hpolls Hw. unfold interactive_login. rewrite Hpolls.
  assert (login_loop (waiting ++ (true, pages) :: rest)
          = Some LoginStopped) as ->; [|done].
  clear Hpolls. induction Hw as [|poll waiting Hp _ IH]; [done|].
  rewrite <-app_comm_cons, login_loop_waiting by done. exact IH.
Qed.

End login.

Lemma is_login_page_iff_witness :
  ∃ slug d e, slug ∈ LOGIN_SLUGS ∧
     "https://x.com/i/flow/login?redirect=bookmarks" = d +:+ slug +:+ e.
Proof.
  apply (proj1 (is_login_page_iff
                  "https://x.com/i/flow/login?redirect=bookmarks")).
  reflexivity.
Defined.

(** One poll on the login page, one with a page that cannot be read, then
    the home page. *)
Lemma login_detected_at_first_page_elsewhere_witness :
  login_loop ([(false, [Ok "https://x.com/login"]);
               (false, [Raise PlaywrightError; Ok "https://x.com/i/flow/x"])]
              ++ (false, [Raise PlaywrightError; Ok "https://x.com/home"])
              :: []) = Some LoginDetected.
Proof.
  apply (login_detected_at_first_page_elsewhere _ _ "https://x.com/home").
  - repeat constructor; try discriminate;
      intros u Hu; repeat (apply elem_of_cons in Hu as [Hu|Hu];
                           [by inversion Hu|]);
      by apply elem_of_nil in Hu.
  - apply list_elem_of_further, list_elem_of_here.
  - reflexivity.
Defined.

Lemma login_succeeds_iff_session_saved_witness :
  (true = true ↔
     login_loop (polls quick_login) = Some LoginDetected ∧
     storage_state_r quick_login = Ok ()) ∧
  (true = true →
   (<[ "twitter_auth.json" := SessionFile ]> ∅ : gmap string file)
     !! "twitter_auth.json" = Some SessionFile) ∧
  ((<[ "twitter_auth.json" := SessionFile ]> ∅ : gmap string file)
     !! "twitter_auth.json" = (∅ : gmap string file) !! "twitter_auth.json" ∨
   (<[ "twitter_auth.json" := SessionFile ]> ∅ : gmap string file)
     !! "twitter_auth.json" = Some SessionFile) ∧
  (∀ p, p ≠ "twitter_auth.json" →
        (<[ "twitter_auth.json" := SessionFile ]> ∅ : gmap string file) !! p
        = (∅ : gmap string file) !! p).
Proof.
  apply (login_succeeds_iff_session_saved quick_login "twitter_auth.json" ∅).
  reflexivity.
Defined.

Lemma login_interrupted_witness :
  interactive_login
    {| polls := [(false, [Ok "https://x.com/login"])] ++ (true, []) :: [];
       storage_state_r := Ok (); late_stop := false;
       storage_state_partial_r := Ok () |} "twitter_auth.json" ∅
  = Some (false, <["twitter_auth.json" := SessionFile]> ∅).
Proof.
  apply (login_interrupted
           {| polls := [(false, [Ok "https://x.com/login"])]
                       ++ (true, []) :: [];
              storage_state_r := Ok (); late_stop := false;
              storage_state_partial_r := Ok () |}
           "twitter_auth.json" ∅ [(false, [Ok "https://x.com/login"])] [] []).
  - reflexivity.
  - repeat constructor; try discriminate.
    intros u Hu. apply list_elem_of_singleton in Hu. by inversion Hu.
Defined.

(** ** More on the article fetcher *)

Section pages.
Variable site : article_site.

Lemma filter_ne_snoc (l : list nat) (ap : nat) :
  ap ∉ l → filter (λ p, p ≠ ap) (l ++ [ap]) = l.
Proof.
  intros Hn. rewrite filter_app, filter_cons_False, filter_nil, app_nil_r
    by (intros ?; done).
  induction l as [|x l IH]; [done|].
  apply not_elem_of_cons in Hn as [Hx Hn].
  rewrite filter_cons_True by done. f_equal. by apply IH.
Qed.

Lemma close_page_after_open (b : browser) :
  next_page b ∉ open_pages b →
  close_page (next_page b)
    {| open_pages := open_pages b ++ [next_page b];
       next_page := S (next_page b) |}
  = {| open_pages := open_pages b; next_page := S (next_page b) |}.
Proof. intros Hn. unfold close_page. simpl. by rewrite filter_ne_snoc. Qed.

(** X26. A fetch that runs to its end leaves the open pages as they were, and
    the text it returns has no white space at either end. *)
Theorem successful_fetch_restores_the_browser b url text b' :
  fetch_article_try site b url = (Ok text, b') →
  next_page b ∉ open_pages b →
  fetch_article_content site b url = (text, b') ∧
  open_pages b' = open_pages b ∧ next_page b' = S (next_page b) ∧
  (∀ c r, text = String c r → Py.isspace c = false) ∧
  (∀ c r, String.rev text = String c r → Py.isspace c = false).
Proof.
  intros Hf Hn. split; [by apply fetch_article_content_success|].
  revert Hf. unfold fetch_article_try.
  destruct (new_page_r site (next_page b)); [|done].
  destruct (goto_r _); [|done].
  assert (∀ raw : string,
            (Ok (Py.strip raw),
             close_page (next_page b)
               {| open_pages := open_pages b ++ [next_page b];
                  next_page := S (next_page b) |})
            = (Ok text, b') →
            open_pages b' = open_pages b ∧ next_page b' = S (next_page b) ∧
            (∀ c r, text = String c r → Py.isspace c = false) ∧
            (∀ c r, String.rev text = String c r → Py.isspace c = false))
    as Hend.
  { intros raw [= <- <-]. rewrite close_page_after_open by done.
    destruct (strip_by_spec Py.isspace raw) as (_ & Hh & Hl).
    split_and!; done. }
  destruct (article_body _) as [[[raw|]|]|]; [| | |done].
  - destruct (close_r _); [apply Hend|done].
  - done.
  - destruct (article_tag _) as [[[raw|]|]|]; [| | |done].
    + destruct (close_r _); [apply Hend|done].
    + done.
    + destruct (close_r _); [apply Hend|done].
Qed.

(** X27. Whatever happens, the fetcher closes no page but the one it opened. *)
Theorem fetch_closes_no_other_page b url p :
  p ∈ open_pages b → p ≠ next_page b →
  p ∈ open_pages (snd (fetch_article_content site b url)).
Proof.
  intros Hp Hne. unfold fetch_article_content, fetch_article_try.
  assert (p ∈ open_pages b ++ [next_page b]) as Hp'.
  { apply elem_of_app. by left. }
  assert (p ∈ open_pages
                (close_page (next_page b)
                   {| open_pages := open_pages b ++ [next_page b];
                      next_page := S (next_page b) |})) as Hc.
  { unfold close_page. simpl. by apply list_elem_of_filter. }
  destruct (new_page_r site (next_page b)); [|done].
  destruct (goto_r _); [|done].
  destruct (article_body _) as [[[raw|]|]|]; [| | |done].
  - by destruct (close_r _).
  - done.
  - destruct (article_tag _) as [[[raw|]|]|]; [| | |done].
    + by destruct (close_r _).
    + done.
    + by destruct (close_r _).
Qed.

End pages.

Lemma successful_fetch_restores_the_browser_witness :
  fetch_article_content (plain_site "  The body.  ")
    {| open_pages := [O; 2%nat]; next_page := 3%nat |}
    "https://x.com/i/articles/1"
  = ("The body.", {| open_pages := [O; 2%nat]; next_page := 4%nat |}).
Proof.
  apply (successful_fetch_restores_the_browser (plain_site "  The body.  ")
           {| open_pages := [O; 2%nat]; next_page := 3%nat |}
           "https://x.com/i/articles/1").
  - reflexivity.
  - simpl. intros Hin.
    repeat (apply elem_of_cons in Hin as [Hin|Hin]; [discriminate Hin|]).
    by apply elem_of_nil in Hin.
Defined.

Lemma fetch_closes_no_other_page_witness :
  2%nat ∈ open_pages
    (snd (fetch_article_content stalled_site
            {| open_pages := [O; 2%nat]; next_page := 3%nat |}
            "https://x.com/i/articles/1")).
Proof.
  apply (fetch_closes_no_other_page stalled_site
           {| open_pages := [O; 2%nat]; next_page := 3%nat |}
           "https://x.com/i/articles/1" 2%nat).
  - apply list_elem_of_further, list_elem_of_here.
  - discriminate.
Defined.

(** ** More on the command line *)

Section saving.
Context `{UrlLib} `{FileSys}.

Lemma main_scrape_something env a (fs : gmap string file) r :
  main_scrape env a fs = Some r → r_bookmarks r ≠ [] →
  r_save_calls r = 1%nat ∧
  ∃ fs0 saved,
    (∀ p, p ≠ auth_file a → fs0 !! p = fs !! p) ∧
    save_output (requests_head env) (completion_order env) fs0
      (r_bookmarks r)
      (removesuffix (removesuffix (output a) ".csv") ".jsonl") (fmt a)
    = (saved, r_fs r) ∧
    r_status r = match saved with Ok _ => Returned | Raise e => Uncaught e end.
Proof.
  unfold main_scrape. intros Hm Hb.
  set (c := run_collect (first_collect env) _ a) in Hm.
  assert (∀ (bms : list tweet) (fs0 : gmap string file),
            (∀ p, p ≠ auth_file a → fs0 !! p = fs !! p) →
            match save_output (requests_head env) (completion_order env) fs0
                    bms (removesuffix (removesuffix (output a) ".csv")
                           ".jsonl") (fmt a) with
            | (Ok _, fs') =>
                Some {| r_status := Returned; r_fs := fs';
                        r_bookmarks := bms; r_save_calls := 1%nat |}
            | (Raise e, fs') =>
                Some {| r_status := Uncaught e; r_fs := fs';
                        r_bookmarks := bms; r_save_calls := 1%nat |}
            end = Some r →
            r_save_calls r = 1%nat ∧
            ∃ fs1 saved,
              (∀ p, p ≠ auth_file a → fs1 !! p = fs !! p) ∧
              save_output (requests_head env) (completion_order env) fs1
                (r_bookmarks r)
                (removesuffix (removesuffix (output a) ".csv") ".jsonl")
                (fmt a) = (saved, r_fs r) ∧
              r_status r
              = match saved with Ok _ => Returned | Raise e => Uncaught e end)
    as Hsave.
  { intros bms fs0 Hfr.
    destruct (save_output _ _ fs0 bms _ _) as [[[]|e] fs'] eqn:Hs;
      intros [= <-]; simpl; (split; [done|]).
    - by exists fs0, (Ok ()).
    - by exists fs0, (Raise e). }
  destruct (returned c) as [|t l] eqn:Hret.
  - destruct (headless a); simpl in Hm.
    + injection Hm as <-. done.
    + destruct (interactive_login _ _ _) as [[ok fs1]|] eqn:Hl;
        simpl in Hm; [|done].
      pose proof (interactive_login_frame _ _ _ _ _ Hl) as Hfr.
      destruct ok; simpl in Hm.
      * destruct (returned (run_collect (second_collect env) _ a))
          as [|t l]; simpl in Hm.
        -- injection Hm as <-. done.
        -- by apply (Hsave (t :: l) fs1).
      * injection Hm as <-. done.
  - simpl in Hm. by apply (Hsave (t :: l) fs).
Qed.

(** X28. A run of [main] that ends with bookmarks has called [save_output]
    once, on those bookmarks, under the stem of [--output] and in the
    format asked for, on a disk that differs from the initial one at most
    in the session file.  [main] returns normally when [save_output] does;
    what [save_output] raises escapes [main] uncaught, and the disk is as
    [save_output] left it. *)
Theorem main_saves_what_it_collected env a (fs : gmap string file) r :
  main env a fs = Some r → r_bookmarks r ≠ [] →
  r_save_calls r = 1%nat ∧
  save_auth_only a = false ∧
  ∃ fs0 saved,
    (∀ p, p ≠ auth_file a → fs0 !! p = fs !! p) ∧
    save_output (requests_head env) (completion_order env) fs0
      (r_bookmarks r)
      (removesuffix (removesuffix (output a) ".csv") ".jsonl") (fmt a)
    = (saved, r_fs r) ∧
    r_status r = match saved with Ok _ => Returned | Raise e => Uncaught e end.
Proof.
  unfold main. intros Hm Hb.
  destruct (_ || save_auth_only a) eqn:E.
  - destruct (interactive_login _ _ _) as [[ok fs1]|] eqn:Hl;
      simpl in Hm; [|done].
    pose proof (interactive_login_frame _ _ _ _ _ Hl) as Hfr.
    destruct ok; simpl in Hm; [|by injection Hm as <-].
    destruct (save_auth_only a); [by injection Hm as <-|].
    destruct (main_scrape_something env a fs1 r Hm Hb)
      as (H1 & fs0 & saved & Hfr0 & Hs & Hst).
    split_and!; [done..|]. exists fs0, saved. split_and!; [|done..].
    intros p Hp. rewrite Hfr0 by done. by apply Hfr.
  - apply orb_false_iff in E as [_ ->].
    destruct (headless a && _); [by injection Hm as <-|].
    destruct (main_scrape_something env a fs r Hm Hb)
      as (H1 & fs0 & saved & Hfr0 & Hs & Hst).
    split_and!; [done..|]. by exists fs0, saved.
Qed.

(** X29. With [--save-auth-only], [main] logs in and stops: it exits with
    status 0 when [interactive_login] answered [True], and then the
    session file exists, and with status 1 when it answered [False]; it
    never scrapes nor saves, and the disk is as the login left it. *)
Theorem save_auth_only_never_scrapes env a (fs : gmap string file) r :
  save_auth_only a = true → main env a fs = Some r →
  ∃ ok,
    interactive_login (first_login env) (auth_file a) fs
      = Some (ok, r_fs r) ∧
    r_status r = Exited (if ok : bool then 0 else 1) ∧
    r_bookmarks r = [] ∧ r_save_calls r = O ∧
    (ok = true → r_fs r !! auth_file a = Some SessionFile) ∧
    (∀ p, p ≠ auth_file a → r_fs r !! p = fs !! p).
Proof.
  intros Hs. unfold main. rewrite Hs, orb_true_r.
  destruct (interactive_login _ _ _) as [[ok fs1]|] eqn:Hl; simpl; [|done].
  pose proof (interactive_login_frame _ _ _ _ _ Hl) as Hfr.
  destruct ok; simpl; intros [= <-]; simpl.
  - exists true. split_and!; [done..| |done].
    intros _. revert Hl. unfold interactive_login.
    destruct (login_loop _) as [[| |]|]; [| | |done]; simpl.
    + by intros [= ].
    + by intros [= ].
    + destruct (storage_state_r _); simpl; [|by intros [= ]].
      intros [= <-]. apply lookup_insert_eq.
  - exists false. by split_and!.
Qed.

End saving.

(** Alice's article is collected and both output files are written. *)
Lemma main_saves_what_it_collected_witness :
  ∃ r, main scrape_env default_args earlier_files = Some r ∧
       r_status r = Returned ∧ r_save_calls r = 1%nat ∧
       r_bookmarks r = [set_article_text "The body." article_tweet].
Proof.
  destruct (main scrape_env default_args earlier_files) as [r|] eqn:Hm;
    [|vm_compute in Hm; discriminate Hm].
  assert (r_bookmarks r = [set_article_text "The body." article_tweet])
    as Hb by (vm_compute in Hm; injection Hm as <-; reflexivity).
  assert (r_status r = Returned) as Hst
    by (vm_compute in Hm; injection Hm as <-; reflexivity).
  exists r.
  destruct (main_saves_what_it_collected scrape_env default_args
              earlier_files r) as (H1 & _).
  - exact Hm.
  - rewrite Hb. discriminate.
  - split_and!; [reflexivity|exact Hst|exact H1|exact Hb].
Defined.

(** The login succeeds on an empty disk: exit status 0, and the session
    file is there. *)
Lemma save_auth_only_never_scrapes_witness :
  ∃ r, main relogin_env
         {| save_auth_only := true; auth_file := "twitter_auth.json";
            max_scrolls := 100; output := "bookmarks"; fmt := "csv";
            headless := false; no_articles := false |} ∅ = Some r ∧
       r_bookmarks r = [] ∧ r_save_calls r = O ∧
       r_status r = Exited 0 ∧
       r_fs r !! "twitter_auth.json" = Some SessionFile.
Proof.
  set (a := {| save_auth_only := true; auth_file := "twitter_auth.json";
               max_scrolls := 100; output := "bookmarks"; fmt := "csv";
               headless := false; no_articles := false |}).
  destruct (main relogin_env a ∅) as [r|] eqn:Hm;
    [|vm_compute in Hm; discriminate Hm].
  exists r.
  destruct (save_auth_only_never_scrapes relogin_env a ∅ r eq_refl Hm)
    as (ok & Hl & Hst & H1 & H2 & H3 & _).
  assert (ok = true) as ->.
  { vm_compute in Hm. injection Hm as <-. vm_compute in Hl.
    injection Hl as ->. reflexivity. }
  split_and!; [reflexivity|exact H1|exact H2|exact Hst|exact (H3 eq_refl)].
Defined.
